(** * MaxScale backend connectivity: host parsing, identifier translation,
      packet decoding, connection set-up and query execution.

    A shallow embedding of
      - maxutils/maxbase/src/host.cc
      - server/core/mysql_utils.cc
    C++ [std::string] values are lists of characters, C strings are
    NUL-terminated character buffers, [int] values are integers, the
    MariaDB client library is an interface the functions are written
    against. *)

From Stdlib Require Import ZArith Ascii String DecimalString List Bool Lia.
Import ListNotations.

Local Open Scope Z_scope.

(* ================================================================== *)
(** * Part I: the embedding *)
(* ================================================================== *)

(** ** Characters and strings *)

Module Chars.

Definition code (c : ascii) : N := N_of_ascii c.

Definition in_range (lo hi : N) (c : ascii) : bool :=
  ((lo <=? code c) && (code c <=? hi))%N.

(** The <cctype> predicates in the "C" locale. *)
Definition isdigit (c : ascii) : bool := in_range 48 57 c.
Definition isalpha (c : ascii) : bool := in_range 65 90 c || in_range 97 122 c.
Definition isalnum (c : ascii) : bool := isalpha c || isdigit c.
Definition isxdigit (c : ascii) : bool :=
  isdigit c || in_range 65 70 c || in_range 97 102 c.
Definition isspace (c : ascii) : bool := in_range 9 13 c || (code c =? 32)%N.

Definition NUL : ascii := "000"%char.

End Chars.

Module Str.
Import Chars.

(** [std::string] contents. *)
Definition t := list ascii.

Definition lit (s : string) : t := list_ascii_of_string s.

(** [std::find(begin(s), end(s), c)] as an index; [length s] stands for
    [end(s)]. *)
Fixpoint find_char (c : ascii) (s : t) : nat :=
  match s with
  | [] => O
  | x :: r => if (x =? c)%char then O else S (find_char c r)
  end.

(** [std::count(begin(s), end(s), c)]. *)
Fixpoint count_char (c : ascii) (s : t) : nat :=
  match s with
  | [] => O
  | x :: r => if (x =? c)%char then S (count_char c r) else count_char c r
  end.

Definition none_of (p : ascii -> bool) (s : t) : bool := negb (existsb p s).
Definition all_of (p : ascii -> bool) (s : t) : bool := forallb p s.

(** [std::copy(first, last, back_inserter(out))] on an empty [out]. *)
Definition range (s : t) (first last : nat) : t :=
  firstn (last - first) (skipn first s).

(** [s.front()] and [s.back()].  On the empty string both are outside the
    contract of [std::string]; the model reads the terminator there. *)
Definition front (s : t) : ascii := hd NUL s.
Definition back (s : t) : ascii := last s NUL.

Definition empty (s : t) : bool :=
  match s with [] => true | _ => false end.

Fixpoint ltrim (s : t) : t :=
  match s with
  | [] => []
  | c :: r => if isspace c then ltrim r else s
  end.

Definition rtrim (s : t) : t := rev (ltrim (rev s)).

(** Modelled from the spec: [maxbase::trimmed_copy] (maxbase/string.hh is
    not part of the sources at hand) removes leading and trailing
    whitespace. *)
Definition trimmed_copy (s : t) : t := rtrim (ltrim s).

(** The prefix of a buffer up to its first NUL: what [%s], [strlen] and
    [c_str()] consumers see. *)
Fixpoint c_str (s : t) : t :=
  match s with
  | [] => []
  | c :: r => if (c =? NUL)%char then [] else c :: c_str r
  end.

(** Decimal rendering of an [int], as [operator<<] prints it. *)
Definition dec (z : Z) : t := lit (NilZero.string_of_int (Z.to_int z)).

Definition digit_value (c : ascii) : Z := Z.of_N (code c) - 48.

(** Conversion of a two's complement [long] to [int]. *)
Definition to_int32 (z : Z) : Z := (z + 2 ^ 31) mod 2 ^ 32 - 2 ^ 31.

(** [atoi] on the digits a string starts with.  The value is accumulated
    as [strtol] does, saturating at [LONG_MAX], and then narrowed to
    [int]. *)
Fixpoint digits_value (acc : Z) (s : t) : Z :=
  match s with
  | [] => acc
  | c :: r => if isdigit c then digits_value (10 * acc + digit_value c) r
              else acc
  end.

Definition atoi (s : t) : Z :=
  to_int32 (Z.min (digits_value 0 s) (2 ^ 63 - 1)).

End Str.

(** ** maxbase::Host (host.cc) *)

Module Host.
Import Chars Str.

Inductive Type_ := Invalid | UnixDomainSocket | HostName | IPV4 | IPV6.

Record Host := mkHost {
  m_address : Str.t;
  m_port : Z;
  m_type : Type_;
  m_org_input : Str.t
}.

Definition is_valid_ipv4 (ip : Str.t) : bool :=
  all_of (fun ch => isdigit ch || (ch =? ".")%char) ip
  && ((length ip <=? 15) && (7 <=? length ip))%nat
  && (count_char "." ip =? 3)%nat.

Definition is_valid_ipv6 (ip : Str.t) : bool :=
  let invalid_char ch :=
    negb (isxdigit ch || (ch =? ":")%char || (ch =? ".")%char) in
  (2 <=? count_char ":" ip)%nat
  && none_of invalid_char ip
  && ((length ip <=? 45) && (2 <=? length ip))%nat.

Definition is_valid_hostname (hn : Str.t) : bool :=
  let invalid_char ch :=
    negb (isalnum ch || (ch =? "_")%char || (ch =? ".")%char) in
  none_of invalid_char hn
  && negb (front hn =? "_")%char
  && ((length hn <=? 253) && (0 <? length hn))%nat.

Definition is_valid_socket (addr : Str.t) : bool :=
  (front addr =? "/")%char && negb (back addr =? "/")%char.

Definition is_valid_port (port : Z) : bool :=
  (0 <? port) && (port <? Z.shiftl 1 16).

Definition with_type (h : Host) (ty : Type_) : Host :=
  mkHost (m_address h) (m_port h) ty (m_org_input h).

Definition set_type (h : Host) (port_string_specified : bool) : Host :=
  if is_valid_socket (m_address h) then
    if negb port_string_specified then with_type h UnixDomainSocket else h
  else if is_valid_port (m_port h) then
    if is_valid_ipv4 (m_address h) then with_type h IPV4
    else if is_valid_ipv6 (m_address h) then with_type h IPV6
    else if is_valid_hostname (m_address h) then with_type h HostName
    else h
  else h.

(** The state of the text constructor when it reaches
    [if (ite == end(input))]: the address collected so far, the port text
    and the position of [ite]. *)
Record scan := mkScan {
  sc_address : Str.t;
  sc_port_part : Str.t;
  sc_ite : nat
}.

Definition scan_input (input : Str.t) : scan :=
  let e := length input in
  if (front input =? "[")%char then
    let last := find_char "]" input in
    let addr := range input 1 last in
    if negb (last =? e)%nat then
      let last1 := S last in
      if negb (last1 =? e)%nat
         && (nth last1 input NUL =? ":")%char
         && negb (S last1 =? e)%nat
      then mkScan addr (range input (S last1) e) e
      else mkScan addr [] last1
    else mkScan addr [] 1%nat
  else if is_valid_ipv6 input then mkScan input [] e
  else
    let colon := find_char ":" input in
    let addr := range input 0 colon in
    if negb (colon =? e)%nat && negb (S colon =? e)%nat
    then mkScan addr (range input (S colon) e) e
    else mkScan addr [] colon.

Section Constructors.

(** The value [m_port] is initialised with.  The member initialisers
    are in host.hh, which is not among the sources at hand, so the
    value is left open. *)
Variable unset_port : Z.

(** [Host::Host(const std::string& in)] *)
Definition from_string (in_ : Str.t) : Host :=
  let input := trimmed_copy in_ in
  if empty input then mkHost [] unset_port Invalid in_
  else
    let sc := scan_input input in
    if (sc_ite sc =? length input)%nat then
      let port :=
        if negb (empty (sc_port_part sc)) then
          if all_of isdigit (sc_port_part sc)
          then atoi (sc_port_part sc) else -1
        else unset_port in
      set_type (mkHost (sc_address sc) port Invalid in_)
               (negb (empty (sc_port_part sc)))
    else mkHost (sc_address sc) unset_port Invalid in_.

(** Whether the text constructor reaches the call of [set_type]. *)
Definition reaches_set_type (in_ : Str.t) : bool :=
  let input := trimmed_copy in_ in
  negb (empty input)
  && (sc_ite (scan_input input) =? length input)%nat.

(** The address [set_type] is called on by the text constructor. *)
Definition address_at_set_type (in_ : Str.t) : Str.t :=
  sc_address (scan_input (trimmed_copy in_)).

End Constructors.

(** [Host::Host(const std::string& addr, int port)] *)
Definition from_addr_port (addr : Str.t) (port : Z) : Host :=
  let h := mkHost addr port Invalid addr in
  if negb (empty addr) && negb (front addr =? "[")%char
  then set_type h false else h.

(** [operator<<(std::ostream&, const Host&)] *)
Definition format (host : Host) : Str.t :=
  match m_type host with
  | Invalid =>
      lit "INVALID input: '" ++ m_org_input host ++ lit "' parsed to "
      ++ m_address host ++ lit ":" ++ dec (m_port host)
  | UnixDomainSocket => m_address host
  | HostName | IPV4 => m_address host ++ [":"%char] ++ dec (m_port host)
  | IPV6 =>
      ["["%char] ++ m_address host ++ lit "]:" ++ dec (m_port host)
  end.

(** Equality of hosts as values: same address, port and type. *)
Definition same_host (a b : Host) : Prop :=
  m_address a = m_address b /\ m_port a = m_port b /\ m_type a = m_type b.

(** The hosts the two constructors produce. *)
Inductive produced (unset_port : Z) : Host -> Prop :=
| produced_from_string (in_ : Str.t) :
    produced unset_port (from_string unset_port in_)
| produced_from_addr_port (addr : Str.t) (port : Z) :
    produced unset_port (from_addr_port addr port).

(** The order in which [set_type] tries the address shapes of a network
    address. *)
Definition network_type (addr : Str.t) : Type_ :=
  if is_valid_ipv4 addr then IPV4
  else if is_valid_ipv6 addr then IPV6
  else if is_valid_hostname addr then HostName
  else Invalid.

Definition is_network_type (ty : Type_) : bool :=
  match ty with
  | HostName | IPV4 | IPV6 => true
  | _ => false
  end.

(** What the type of a host says about its address and port. *)
Definition classified (h : Host) : Prop :=
  match m_type h with
  | Invalid => True
  | UnixDomainSocket => is_valid_socket (m_address h) = true
  | _ => is_valid_socket (m_address h) = false
         /\ is_valid_port (m_port h) = true
         /\ network_type (m_address h) = m_type h
  end.

(** The characters the three address shapes accept. *)
Definition ipv4_char (ch : ascii) : bool := isdigit ch || (ch =? ".")%char.
Definition ipv6_char (ch : ascii) : bool :=
  isxdigit ch || (ch =? ":")%char || (ch =? ".")%char.
Definition hostname_char (ch : ascii) : bool :=
  isalnum ch || (ch =? "_")%char || (ch =? ".")%char.

(** The text of a port number is there, is made of digits and reads back
    as the number. *)
Definition port_text_ok (port : Z) : bool :=
  negb (empty (dec port)) && all_of isdigit (dec port)
  && (atoi (dec port) =? port).

(** The [n] integers from [first] on. *)
Fixpoint count_up (n : nat) (first : Z) : list Z :=
  match n with
  | O => []
  | S n' => first :: count_up n' (first + 1)
  end.

Definition valid_ports : list Z := count_up (Z.to_nat 65535) 1.

(** [operator>>(std::istream&, std::string&)]: the characters up to the
    next whitespace, and what is left of the stream. *)
Fixpoint take_token (s : Str.t) : Str.t * Str.t :=
  match s with
  | [] => ([], [])
  | c :: r =>
      if isspace c then ([], s)
      else let '(token, rest) := take_token r in (c :: token, rest)
  end.

(** [operator>>(std::istream& is, Host& host)] on a stream that holds
    [stream]: leading whitespace is skipped, the next token is handed to
    the text constructor; the host and the unread rest of the stream. *)
Definition read_host (unset_port : Z) (stream : Str.t) : Host * Str.t :=
  let '(input, rest) := take_token (ltrim stream) in
  (from_string unset_port input, rest).

(** A character that is not whitespace. *)
Definition printable (c : ascii) : bool := negb (isspace c).

(** [operator<<] followed by more output on the same stream. *)
Definition write_host (host : Host) (more : Str.t) : Str.t :=
  format host ++ more.

(** *** reverse_dns *)

Inductive family := AF_INET | AF_INET6.

(** The resolver calls [reverse_dns] is written against: [inet_pton]
    gives the binary address when it returns 1, [getnameinfo] with
    [NI_NAMEREQD] gives the name when it returns 0. *)
Class Resolver := {
  in_addr : Type;
  inet_pton : family -> Str.t -> option in_addr;
  getnameinfo : family -> in_addr -> option Str.t
}.

(** [reverse_dns(ip, output)]: the returned flag and the string behind
    [output] afterwards. *)
Definition reverse_dns `{Resolver} (ip : Str.t) (output : Str.t)
    : bool * Str.t :=
  let socket_address :=
    if is_valid_ipv4 ip then
      option_map (fun a => (AF_INET, a)) (inet_pton AF_INET (c_str ip))
    else if is_valid_ipv6 ip then
      option_map (fun a => (AF_INET6, a)) (inet_pton AF_INET6 (c_str ip))
    else None in
  match socket_address with
  | Some (fam, a) =>
      match getnameinfo fam a with
      | Some host => (true, c_str host)
      | None => (false, output)
      end
  | None => (false, output)
  end.

(** A resolver that knows one address. *)
#[export] Instance one_name_resolver : Resolver := {|
  in_addr := Str.t;
  inet_pton := fun _ text => Some text;
  getnameinfo := fun _ a =>
    if list_eq_dec ascii_dec a (lit "127.0.0.1") then Some (lit "localhost")
    else None
|}.

End Host.

(** ** Identifier helpers (mysql_utils.cc) *)

Module Ident.
Import Chars Str.

(** *** C character buffers *)

(** [s[i]], with the terminator beyond the modelled cells. *)
Definition deref (s : Str.t) (i : nat) : ascii := nth i s NUL.

(** [s[i] = c] on a cell of the buffer. *)
Definition store (s : Str.t) (i : nat) (c : ascii) : Str.t :=
  if (i <? length s)%nat then firstn i s ++ c :: skipn (S i) s else s.

Definition strlen (s : Str.t) : nat := length (c_str s).

(** [memmove(s + dst, s + src, n)] *)
Definition memmove (s : Str.t) (dst src n : nat) : Str.t :=
  firstn dst s ++ firstn n (skipn src s) ++ skipn (dst + n) s.

(** *** mxs_mysql_trim_quotes *)

(** The loop that skips leading whitespace, [++i] while the cell at [i]
    is a non-NUL space, on the cells [rest] that start at [i]; the
    result is the new position. *)
Fixpoint skip_space (rest : Str.t) (i : nat) : nat :=
  match rest with
  | [] => i
  | c :: r =>
      if negb (c =? NUL)%char && isspace c then skip_space r (S i) else i
  end.

(** The loop that removes trailing whitespace: while the cell before
    [end] is a space, it is overwritten with NUL and [end] steps back. *)
Fixpoint strip_end (s : Str.t) (e : nat) : Str.t * nat :=
  match e with
  | O => (s, O)
  | S e' =>
      if isspace (deref s e') then strip_end (store s e' NUL) e'
      else (s, e)
  end.

(** The [switch] on the character at [i] that picks the quote character;
    [None] is [quote = 0]. *)
Definition quote_of (c : ascii) : option ascii :=
  if (c =? "'")%char || (c =? "034")%char || (c =? "`")%char
  then Some c else None.

(** [mxs_mysql_trim_quotes(char* s)]: the returned flag and the buffer
    as the call leaves it. *)
Definition mxs_mysql_trim_quotes (s : Str.t) : bool * Str.t :=
  let e := strlen s in
  let i := skip_space s 0 in
  if negb (deref s i =? NUL)%char then
    let '(s1, e1) := strip_end s e in
    match quote_of (deref s1 i) with
    | Some quote =>
        let i1 := S i in
        let e2 := (e1 - 1)%nat in
        if (deref s1 e2 =? quote)%char then
          (true, memmove (store s1 e2 NUL) 0 i1 (e2 + 1 - i1))
        else (false, s1)
    | None =>
        if negb (i =? 0)%nat then (true, memmove s1 0 i (e1 + 1 - i))
        else (true, s1)
    end
  else (true, store s 0 NUL).

(** The call on a string given by its text: the buffer holds the text
    and its terminator, the result is the text the buffer holds
    afterwards. *)
Definition trim_quotes (text : Str.t) : Str.t * bool :=
  let '(ok, s') := mxs_mysql_trim_quotes (text ++ [NUL]) in
  (c_str s', ok).

(** *** mxs_mysql_name_to_pcre *)

Inductive mxs_pcre_quote_approach_t :=
| MXS_PCRE_QUOTE_VERBATIM
| MXS_PCRE_QUOTE_WILDCARD.

Inductive mxs_mysql_name_kind_t :=
| MXS_MYSQL_NAME_WITH_WILDCARD
| MXS_MYSQL_NAME_WITHOUT_WILDCARD.

Definition is_wildcard_approach (a : mxs_pcre_quote_approach_t) : bool :=
  match a with MXS_PCRE_QUOTE_WILDCARD => true | _ => false end.

(** The characters of the second group of [case] labels. *)
Definition is_pcre_special (c : ascii) : bool :=
  existsb (fun m => (c =? m)%char) (lit "'^.$|()[]*+?{}").

(** [*pcre = c] at offset [p] of the destination; [None] when the cell
    lies beyond the destination buffer. *)
Definition put (pcre : Str.t) (p : nat) (c : ascii) : option Str.t :=
  if (p <? length pcre)%nat
  then Some (firstn p pcre ++ c :: skipn (S p) pcre) else None.

(** The loop over the characters of [mysql], up to its terminator.
    [pcre] is the destination buffer with the
    contents the caller left in it, [p] the offset of the write
    cursor. *)
Fixpoint name_to_pcre_loop (approach : mxs_pcre_quote_approach_t)
    (mysql : Str.t) (pcre : Str.t) (p : nat) (rv : mxs_mysql_name_kind_t)
    : option (Str.t * nat * mxs_mysql_name_kind_t) :=
  match mysql with
  | [] => Some (pcre, p, rv)
  | c :: rest =>
      if (c =? NUL)%char then Some (pcre, p, rv)
      else if (c =? "%")%char then
        if is_wildcard_approach approach then
          match put pcre p "."%char with
          | Some pcre1 =>
              match put pcre1 (S p) "*"%char with
              | Some pcre2 =>
                  name_to_pcre_loop approach rest pcre2 (S (S p))
                                    MXS_MYSQL_NAME_WITH_WILDCARD
              | None => None
              end
          | None => None
          end
        else
          name_to_pcre_loop approach rest pcre (S p)
                            MXS_MYSQL_NAME_WITH_WILDCARD
      else if is_pcre_special c then
        match put pcre p "\"%char with
        | Some pcre1 =>
            match put pcre1 (S p) c with
            | Some pcre2 =>
                name_to_pcre_loop approach rest pcre2 (S (S p)) rv
            | None => None
            end
        | None => None
        end
      else
        match put pcre p c with
        | Some pcre1 => name_to_pcre_loop approach rest pcre1 (S p) rv
        | None => None
        end
  end.

(** [mxs_mysql_name_to_pcre(pcre, mysql, approach)]: the destination
    buffer afterwards and the returned kind, or [None] when a write
    falls outside the destination. *)
Definition mxs_mysql_name_to_pcre (pcre : Str.t) (mysql : Str.t)
    (approach : mxs_pcre_quote_approach_t)
    : option (Str.t * mxs_mysql_name_kind_t) :=
  match name_to_pcre_loop approach mysql pcre 0
                          MXS_MYSQL_NAME_WITHOUT_WILDCARD with
  | Some (pcre1, p, rv) =>
      match put pcre1 p NUL with
      | Some pcre2 => Some (pcre2, rv)
      | None => None
      end
  | None => None
  end.

(** The translation of one input character as the specification words
    it. *)
Definition emit_char (wildcard_mode : bool) (c : ascii) : Str.t :=
  if is_pcre_special c then ["\"%char; c]
  else if (c =? "%")%char && wildcard_mode then lit ".*"
  else [c].

Definition pattern_text (wildcard_mode : bool) (pattern : Str.t) : Str.t :=
  flat_map (emit_char wildcard_mode) pattern.

Definition has_percent (pattern : Str.t) : bool :=
  existsb (fun c => (c =? "%")%char) pattern.

(** The cells of the destination the loop moves over for one character. *)
Definition cells_of (approach : mxs_pcre_quote_approach_t) (c : ascii) : nat :=
  if (c =? "%")%char then
    if is_wildcard_approach approach then 2%nat else 1%nat
  else if is_pcre_special c then 2%nat else 1%nat.

Definition cells (approach : mxs_pcre_quote_approach_t) (mysql : Str.t)
    : nat :=
  list_sum (map (cells_of approach) (c_str mysql)).

(** *** mxs_mysql_get_value *)

(** [tolower] in the "C" locale. *)
Definition tolower (c : ascii) : ascii :=
  if in_range 65 90 c then ascii_of_N (code c + 32) else c.

(** [strcasecmp(s1, s2)] on two character buffers; the end of a buffer
    reads as its terminator. *)
Fixpoint strcasecmp (s1 s2 : Str.t) : Z :=
  match s1, s2 with
  | [], [] => 0
  | [], y :: _ => - Z.of_N (code (tolower y))
  | x :: _, [] => Z.of_N (code (tolower x))
  | x :: r1, y :: r2 =>
      if (tolower x =? tolower y)%char && negb (x =? NUL)%char
      then strcasecmp r1 r2
      else Z.of_N (code (tolower x)) - Z.of_N (code (tolower y))
  end.

Record MYSQL_FIELD := mkField { field_name : Str.t }.

(** A stored result as far as [mxs_mysql_get_value] looks at it: the array
    [mysql_fetch_fields] returns, of [mysql_num_fields] entries. *)
Record MYSQL_RES := mkRes { mysql_fetch_fields : list MYSQL_FIELD }.

Definition mysql_num_fields (result : MYSQL_RES) : nat :=
  length (mysql_fetch_fields result).

(** A row: one value per field, [None] for a null pointer. *)
Definition MYSQL_ROW := list (option Str.t).

(** The [for] loop from index [i] on, over the fields [f] that are
    left. *)
Fixpoint get_value_from (f : list MYSQL_FIELD) (i : nat) (row : MYSQL_ROW)
    (key : Str.t) : option Str.t :=
  match f with
  | [] => None
  | fi :: rest =>
      if strcasecmp (field_name fi) key =? 0 then nth i row None
      else get_value_from rest (S i) row key
  end.

(** [mxs_mysql_get_value(result, row, key)] *)
Definition mxs_mysql_get_value (result : MYSQL_RES) (row : MYSQL_ROW)
    (key : Str.t) : option Str.t :=
  get_value_from (firstn (mysql_num_fields result) (mysql_fetch_fields result))
                 0 row key.

(** A text with its letters in lower case, up to its terminator. *)
Definition folded (s : Str.t) : Str.t := map tolower (c_str s).

Definition same_name (key : Str.t) (f : MYSQL_FIELD) : bool :=
  if list_eq_dec ascii_dec (folded (field_name f)) (folded key)
  then true else false.

(** The position of the first field a predicate holds for. *)
Fixpoint first_index (p : MYSQL_FIELD -> bool) (f : list MYSQL_FIELD)
    : option nat :=
  match f with
  | [] => None
  | fi :: rest =>
      if p fi then Some O else option_map S (first_index p rest)
  end.

End Ident.

(** ** dbg_decode_response (mysql_utils.cc) *)

Module Packet.
Import Chars Str.

Definition u8 (b : Byte.byte) : Z := Z.of_N (Byte.to_N b).

(** Modelled from the spec: the protocol macros of the MySQL protocol
    header are not part of the sources at hand.  A packet header is 4
    bytes, a 3-byte little-endian payload length and a 1-byte sequence
    number; the command is the first byte of the payload. *)
Definition MYSQL_HEADER_LEN : Z := 4.

Definition gw_mysql_get_byte2 (p : list Byte.byte) : Z :=
  Z.lor (u8 (nth 0 p Byte.x00)) (Z.shiftl (u8 (nth 1 p Byte.x00)) 8).

Definition gw_mysql_get_byte3 (p : list Byte.byte) : Z :=
  Z.lor (Z.lor (u8 (nth 0 p Byte.x00)) (Z.shiftl (u8 (nth 1 p Byte.x00)) 8))
        (Z.shiftl (u8 (nth 2 p Byte.x00)) 16).

Definition MYSQL_GET_PAYLOAD_LEN (header : list Byte.byte) : Z :=
  gw_mysql_get_byte3 header.
Definition MYSQL_GET_PACKET_NO (header : list Byte.byte) : Z :=
  u8 (nth 3 header Byte.x00).
Definition MYSQL_GET_COMMAND (header : list Byte.byte) : Z :=
  u8 (nth 4 header Byte.x00).

(** What can go wrong with a memory access of the decoder: a read of
    [count] bytes of the packet buffer at [offset] that does not lie
    inside the buffer, an access to the local array at an [index]
    beyond its [size], or a move of the buffer iterator by [n] positions
    from [offset] that takes it beyond the end of the buffer. *)
Inductive fault :=
| BufferOverread (offset count : Z)
| ArrayOverrun (index size : Z)
| IteratorPastEnd (offset n : Z).

Inductive result (A : Type) :=
| Ok (a : A)
| Fault (f : fault).
Arguments Ok {A} a.
Arguments Fault {A} f.

Definition bind {A B} (r : result A) (k : A -> result B) : result B :=
  match r with
  | Ok a => k a
  | Fault f => Fault f
  end.

Notation "x <- r ;; k" := (bind r (fun x => k))
  (at level 61, r at next level, right associativity).

(** Reading [count] bytes through the buffer iterator at [offset]. *)
Definition read (b : list Byte.byte) (offset count : Z)
    : result (list Byte.byte) :=
  if (0 <=? offset) && (0 <=? count) && (offset + count <=? Z.of_nat (length b))
  then Ok (firstn (Z.to_nat count) (skipn (Z.to_nat offset) b))
  else Fault (BufferOverread offset count).

(** [std::next(it, n)] on the buffer iterator, where nothing is read at
    the new position: the end of the buffer is the last position the
    iterator can take. *)
Definition next (b : list Byte.byte) (it n : Z) : result Z :=
  if it + n <=? Z.of_nat (length b) then Ok (it + n)
  else Fault (IteratorPastEnd it n).

Inductive classification :=
| OK
| ERR (error_code : Z) (message : list Byte.byte)
| GET_MORE_CLIENT_DATA
| ResultSet.

Record DecodedPacket := mkDecoded {
  packet_no : Z;
  payload_len : Z;
  command : classification
}.

Definition text_of_bytes (l : list Byte.byte) : Str.t :=
  map ascii_of_byte l.

(** [std::stringstream], as far as the decoder uses it: the text written
    so far, which [str()] returns, and the stream's badbit.  The stream
    library is not part of the sources; as the C++ library has it, an
    output operation on a stream whose badbit is set writes nothing, and
    a [write] with a negative count writes nothing and sets the bit. *)
Record stringstream := mkStream {
  str : Str.t;
  badbit : bool
}.

(** [ss << text] *)
Definition out (s : stringstream) (text : Str.t) : stringstream :=
  if badbit s then s else mkStream (str s ++ text) false.

Notation "s << text" := (out s text) (at level 50, left associativity).

(** [ss.write(p, n)], with the bytes at [p]. *)
Definition write (s : stringstream) (p : list Byte.byte) (n : Z)
    : stringstream :=
  if badbit s then s
  else if n <? 0 then mkStream (str s) true
  else mkStream (str s ++ text_of_bytes (firstn (Z.to_nat n) p)) false.

(** The variables of the loop: the iterator (an offset into the buffer),
    [nRemaining], the stream [ss], and the packets decoded so far. *)
Record state := mkState {
  it : Z;
  nRemaining : Z;
  ss : stringstream;
  decoded : list DecodedPacket
}.

(** The [case 0xff] block.  [it] is the iterator after the header copy,
    [ss] the stream after the payload length was written.  The local
    array [error] has [payload_len] cells. *)
Definition decode_err (b : list Byte.byte) (it : Z) (payload_len : Z)
    (ss : stringstream) : result (classification * stringstream) :=
  let ss := ss << lit ", Command : ERR" in
  (* error[0] = *it; *)
  e0 <- read b it 1 ;;
  if payload_len <? 1 then Fault (ArrayOverrun 0 payload_len) else
  (* end = std::next(it, sizeof(error) - 1); std::copy(it, end, error + 1); *)
  rest <- read b it (payload_len - 1) ;;
  let error := e0 ++ rest in
  (* gw_mysql_get_byte2(&error[1]) *)
  if payload_len <? 3 then Fault (ArrayOverrun 2 payload_len) else
  let error_code := gw_mysql_get_byte2 (skipn 1 error) in
  let ss := ss << lit ", Code: " << dec error_code in
  let message_index := 1 + 2 + 1 + 5 in
  let pMessage := skipn (Z.to_nat message_index) error in
  let message_len := payload_len - message_index in
  let ss := ss << lit ", Message : " in
  Ok (ERR error_code pMessage, write ss pMessage message_len).

(** One iteration of the [while] loop. *)
Definition decode_packet (b : list Byte.byte) (st : state) : result state :=
  (* if (!ss.str().empty()) ss << newline; *)
  let ss := if empty (str (ss st)) then ss st else ss st << ["010"%char] in
  let start := it st in
  (* end = std::next(it, sizeof(header)); std::copy(it, end, header); *)
  header <- read b start (MYSQL_HEADER_LEN + 1) ;;
  let it1 := start + (MYSQL_HEADER_LEN + 1) in
  let payload_len := MYSQL_GET_PAYLOAD_LEN header in
  let packet_no := MYSQL_GET_PACKET_NO header in
  let command := MYSQL_GET_COMMAND header in
  let ss := ss << lit "Packet no: " << dec packet_no
               << lit ", Payload len: " << dec payload_len in
  r <- (if command =? 0 then Ok (OK, ss << lit ", Command : OK")
        else if command =? 255 then decode_err b it1 payload_len ss
        else if command =? 251 then
          Ok (GET_MORE_CLIENT_DATA, ss << lit ", Command : GET_MORE_CLIENT_DATA")
        else Ok (ResultSet, ss << lit ", Command : Result Set")) ;;
  (* it = std::next(start, MYSQL_HEADER_LEN + payload_len); *)
  it2 <- next b start (MYSQL_HEADER_LEN + payload_len) ;;
  Ok (mkState it2 (nRemaining st - MYSQL_HEADER_LEN - payload_len) (snd r)
              (decoded st ++ [mkDecoded packet_no payload_len (fst r)])).

Inductive outcome :=
| Returned (st : state)
| Crashed (f : fault) (st : state)
| Exhausted.

(** [while (nRemaining > MYSQL_HEADER_LEN + 1) { ... }] *)
Fixpoint decode_loop (fuel : nat) (b : list Byte.byte) (st : state)
    : outcome :=
  if MYSQL_HEADER_LEN + 1 <? nRemaining st then
    match fuel with
    | O => Exhausted
    | S fuel' =>
        match decode_packet b st with
        | Ok st' => decode_loop fuel' b st'
        | Fault f => Crashed f st
        end
    end
  else Returned st.

Definition initial (b : list Byte.byte) : state :=
  mkState 0 (Z.of_nat (length b)) (mkStream [] false) [].

(** [dbg_decode_response(GWBUF* pPacket)] on a buffer holding the bytes
    [b].  The returned text is [str] of [ss] in the final state. *)
Definition dbg_decode_response (b : list Byte.byte) : outcome :=
  decode_loop (length b) b (initial b).

(** The loop condition as the specification words it: decode while more than a
    header remains. *)
Definition decode_loop_claimed_guard (st : state) : bool :=
  MYSQL_HEADER_LEN <? nRemaining st.

(** A packet on the wire: header and payload. *)
Definition le3 (n : Z) : list Byte.byte :=
  map (fun k => match Byte.of_N (Z.to_N (Z.land (Z.shiftr n k) 255)) with
                | Some x => x | None => Byte.x00 end) [0; 8; 16].

Definition wire (seq : Byte.byte) (payload : list Byte.byte)
    : list Byte.byte :=
  le3 (Z.of_nat (length payload)) ++ seq :: payload.

(** *** Framing of the decoded packets *)

Definition len (b : list Byte.byte) : Z := Z.of_nat (length b).

Definition packet_size (p : DecodedPacket) : Z :=
  MYSQL_HEADER_LEN + payload_len p.

(** The bytes the packets of a list occupy. *)
Definition consumed (ps : list DecodedPacket) : Z :=
  fold_right (fun p acc => packet_size p + acc) 0 ps.

Definition command_byte (c : classification) (byte : Z) : Prop :=
  match c with
  | OK => byte = 0
  | ERR _ _ => byte = 255
  | GET_MORE_CLIENT_DATA => byte = 251
  | ResultSet => byte <> 0 /\ byte <> 255 /\ byte <> 251
  end.

(** Packet [p] was read off the header that starts at [offset], where
    more than a header and a command byte remained. *)
Definition framed_at (b : list Byte.byte) (offset : Z) (p : DecodedPacket)
    : Prop :=
  0 <= offset
  /\ MYSQL_HEADER_LEN + 1 < len b - offset
  /\ payload_len p = MYSQL_GET_PAYLOAD_LEN (skipn (Z.to_nat offset) b)
  /\ packet_no p = MYSQL_GET_PACKET_NO (skipn (Z.to_nat offset) b)
  /\ command_byte (command p)
                  (MYSQL_GET_COMMAND (skipn (Z.to_nat offset) b)).

(** The packets lie back to back from [offset] on. *)
Fixpoint framing (b : list Byte.byte) (offset : Z)
    (ps : list DecodedPacket) : Prop :=
  match ps with
  | [] => True
  | p :: r => framed_at b offset p /\ framing b (offset + packet_size p) r
  end.

(** The bookkeeping of a loop state: the iterator has advanced by the
    sizes of the decoded packets, [nRemaining] is what lies beyond the
    iterator, and the packets are framed back to back from the start
    of the buffer. *)
Definition framed (b : list Byte.byte) (st : state) : Prop :=
  it st = consumed (decoded st)
  /\ nRemaining st = len b - it st
  /\ framing b 0 (decoded st).

(** *** Well-formed packet streams *)



(** The packets of a list on the wire, one after the other. *)
Definition stream (ps : list (Byte.byte * list Byte.byte))
    : list Byte.byte :=
  flat_map (fun p => wire (fst p) (snd p)) ps.


End Packet.

(** ** Connecting and querying (mysql_utils.cc) *)

Module Backend.
Import Chars Str.

Record SSLConfig := mkSSLConfig {
  key : Str.t;
  cert : Str.t;
  ca : Str.t
}.

Inductive mysql_option :=
| MYSQL_OPT_RECONNECT (yes : bool)
| MYSQL_INIT_COMMAND (statement : Str.t)
| MYSQL_OPT_BIND (address : Str.t).

(** The collaborators the functions are written against: the MariaDB
    client library working on a connection handle, [maxsql::mysql_query_ex],
    and [SSLConfig::empty].  Calls that change the handle return its
    new state. *)
Class Client := {
  MYSQL : Type;
  MYSQL_RES : Type;
  SSLConfig_empty : SSLConfig -> bool;
  mysql_ssl_set :
    MYSQL -> option Str.t -> option Str.t -> option Str.t -> MYSQL;
  mysql_optionsv : MYSQL -> mysql_option -> MYSQL * Z;
  (** host, user, password, port, unix socket; [true] when the handle is
      returned, [false] for a null result. *)
  mysql_real_connect :
    MYSQL -> option Str.t -> Str.t -> Str.t -> Z -> option Str.t
    -> MYSQL * bool;
  (** the [number] of the character set information *)
  mysql_get_character_set_info : MYSQL -> Z;
  mysql_get_ssl_cipher : MYSQL -> option Str.t;
  mysql_query_ex : MYSQL -> Str.t -> Z -> Z -> MYSQL * Z;
  mysql_store_result : MYSQL -> MYSQL * option MYSQL_RES;
  mysql_error : MYSQL -> Str.t;
  mysql_errno : MYSQL -> Z
}.

Record SERVER := mkSERVER {
  name : Str.t;
  address : Str.t;
  port : Z;
  extra_port : Z;
  charset : Z;
  warn_ssl_not_enabled : bool;
  ssl_config : option SSLConfig
}.

Record MXS_CONFIG := mkCONFIG {
  local_address : option Str.t;
  query_retries : Z;
  query_retry_timeout : Z
}.

Inductive log_entry :=
| MXS_ERROR (text : Str.t)
| MXS_WARNING (text : Str.t).

Definition set_charset (s : SERVER) (n : Z) : SERVER :=
  mkSERVER (name s) (address s) (port s) (extra_port s) n
           (warn_ssl_not_enabled s) (ssl_config s).

Definition set_warn_ssl_not_enabled (s : SERVER) (w : bool) : SERVER :=
  mkSERVER (name s) (address s) (port s) (extra_port s) (charset s)
           w (ssl_config s).

Definition nonempty_or_null (s : Str.t) : option Str.t :=
  if empty s then None else Some s.

Section WithClient.
Context `{Client}.

(** [have_ssl] *)
Definition have_ssl (server : SERVER) : bool :=
  match ssl_config server with
  | Some ssl => negb (SSLConfig_empty ssl)
  | None => false
  end.

(** The [if (server->address[0] == '/') ... else ...] block: the
    handle afterwards, whether [mysql] is non-null, and what was
    logged. *)
Definition transport_connect (con : MYSQL) (server : SERVER)
    (user passwd : Str.t) : MYSQL * bool * list log_entry :=
  if (nth 0 (address server) NUL =? "/")%char then
    let '(con1, ok) :=
      mysql_real_connect con None user passwd 0 (Some (address server)) in
    (con1, ok, [])
  else
    let '(con1, ok) :=
      mysql_real_connect con (Some (address server)) user passwd
                         (port server) None in
    if negb ok && (0 <? extra_port server) then
      let '(con2, ok2) :=
        mysql_real_connect con1 (Some (address server)) user passwd
                           (extra_port server) None in
      (con2, ok2,
       [MXS_WARNING (lit "Could not connect with normal port to server '"
                     ++ name server ++ lit "', using extra_port")])
    else (con1, ok, []).

(** The options set on the handle before connecting. *)
Definition prepare (config : MXS_CONFIG) (con : MYSQL) (server : SERVER)
    : MYSQL * list log_entry :=
  let con1 :=
    if have_ssl server then
      match ssl_config server with
      | Some ssl =>
          mysql_ssl_set con (nonempty_or_null (key ssl))
                        (nonempty_or_null (cert ssl))
                        (nonempty_or_null (ca ssl))
      | None => con
      end
    else con in
  let con2 := fst (mysql_optionsv con1 (MYSQL_OPT_RECONNECT true)) in
  let con3 :=
    fst (mysql_optionsv con2 (MYSQL_INIT_COMMAND (lit "SET SQL_MODE=''"))) in
  match local_address config with
  | Some la =>
      let '(con4, rc) := mysql_optionsv con3 (MYSQL_OPT_BIND la) in
      (con4,
       if negb (rc =? 0) then
         [MXS_ERROR (lit "'local_address' specified in configuration file, but could not configure MYSQL handle. MaxScale will try to connect using default address.")]
       else [])
  | None => (con3, [])
  end.

Record connect_result := mkConnect {
  (** the returned pointer: the handle, or [None] for NULL *)
  returned : option MYSQL;
  con_after : MYSQL;
  server_after : SERVER;
  logged : list log_entry
}.

(** [mxs_mysql_real_connect(con, server, user, passwd)] under the
    global options [config]. *)
Definition mxs_mysql_real_connect (config : MXS_CONFIG) (con : MYSQL)
    (server : SERVER) (user passwd : Str.t) : connect_result :=
  let '(con1, log1) := prepare config con server in
  let '(con2, mysql, log2) := transport_connect con1 server user passwd in
  if mysql then
    let server1 := set_charset server (mysql_get_character_set_info con2) in
    if have_ssl server
       && match mysql_get_ssl_cipher con2 with None => true | _ => false end
    then
      if warn_ssl_not_enabled server1 then
        mkConnect None con2 (set_warn_ssl_not_enabled server1 false)
          (log1 ++ log2 ++
           [MXS_ERROR (lit "An encrypted connection to '" ++ name server
                       ++ lit "' could not be created, ensure that TLS is enabled on the target server.")])
      else mkConnect None con2 server1 (log1 ++ log2)
    else mkConnect (Some con2) con2 server1 (log1 ++ log2)
  else mkConnect None con2 server (log1 ++ log2).

(** The handle and the outcome of the transport-level connect inside
    [mxs_mysql_real_connect]. *)
Definition transport_of (config : MXS_CONFIG) (con : MYSQL)
    (server : SERVER) (user passwd : Str.t) : MYSQL * bool :=
  fst (transport_connect (fst (prepare config con server))
                         server user passwd).

(** [mxs_mysql_query(conn, query)] *)
Definition mxs_mysql_query (cnf : MXS_CONFIG) (conn : MYSQL)
    (query : Str.t) : MYSQL * Z :=
  mysql_query_ex conn query (query_retries cnf) (query_retry_timeout cnf).

(** [mxb::string_printf("Query '%s' failed: '%s'.", q, e)] *)
Definition failure_text (query error : Str.t) : Str.t :=
  lit "Query '" ++ c_str query ++ lit "' failed: '" ++ c_str error
  ++ lit "'.".

Record execute_result := mkExecute {
  (** the returned [unique_ptr]: a result set, or [None] when empty *)
  rval : option MYSQL_RES;
  conn_after : MYSQL;
  (** the strings and numbers behind [errmsg_out] and [errno_out]
      afterwards; [None] stands for a null pointer *)
  errmsg_after : option Str.t;
  errno_after : option Z
}.

(** [maxscale::execute_query(conn, query, errmsg_out, errno_out)] *)
Definition execute_query (cnf : MXS_CONFIG) (conn : MYSQL) (query : Str.t)
    (errmsg_out : option Str.t) (errno_out : option Z) : execute_result :=
  let '(conn1, rc) := mxs_mysql_query cnf conn (c_str query) in
  let '(conn2, result) :=
    if rc =? 0 then mysql_store_result conn1 else (conn1, None) in
  match result with
  | Some res => mkExecute (Some res) conn2 errmsg_out errno_out
  | None =>
      mkExecute None conn2
        (option_map (fun _ => failure_text query (mysql_error conn2))
                    errmsg_out)
        (option_map (fun _ => mysql_errno conn2) errno_out)
  end.

(** The query has failed for good: the query primitive reported an
    error, or no result set could be stored. *)
Definition query_failed (cnf : MXS_CONFIG) (conn : MYSQL) (query : Str.t)
    : bool :=
  let '(conn1, rc) := mxs_mysql_query cnf conn (c_str query) in
  if rc =? 0 then
    match snd (mysql_store_result conn1) with
    | None => true
    | Some _ => false
    end
  else true.

(** The handle as the failed call leaves it, which [mysql_error] and
    [mysql_errno] are asked about. *)
Definition conn_at_failure (cnf : MXS_CONFIG) (conn : MYSQL)
    (query : Str.t) : MYSQL :=
  let '(conn1, rc) := mxs_mysql_query cnf conn (c_str query) in
  if rc =? 0 then fst (mysql_store_result conn1) else conn1.

(** The message text as the specification words it. *)
Definition claimed_failure_text (query error : Str.t) : Str.t :=
  lit "Query '" ++ query ++ lit "' failed: '" ++ error ++ lit "'".

End WithClient.

(** *** A scripted client, for running the functions *)

(** A handle that records the options applied to it and carries a
    script: which ports accept a connection, the character set and the
    cipher a session reports, and how queries end. *)
Record mock := mkMock {
  mk_ssl_set : bool;
  mk_connected : bool;
  mk_open_port : Z;
  mk_charset : Z;
  mk_cipher : option Str.t;
  mk_query_rc : Z;
  mk_has_result : bool;
  mk_error : Str.t;
  mk_errno : Z
}.

Definition mock_connect (m : mock) (ok : bool) : mock :=
  mkMock (mk_ssl_set m) ok (mk_open_port m) (mk_charset m) (mk_cipher m)
         (mk_query_rc m) (mk_has_result m) (mk_error m) (mk_errno m).

Definition mock_ssl (m : mock) : mock :=
  mkMock true (mk_connected m) (mk_open_port m) (mk_charset m) (mk_cipher m)
         (mk_query_rc m) (mk_has_result m) (mk_error m) (mk_errno m).

#[export] Instance mock_client : Client := {|
  MYSQL := mock;
  MYSQL_RES := unit;
  SSLConfig_empty := fun ssl => empty (ca ssl);
  mysql_ssl_set := fun m _ _ _ => mock_ssl m;
  mysql_optionsv := fun m _ => (m, 0);
  mysql_real_connect := fun m host _ _ port sock =>
    let ok := match sock with
              | Some _ => true
              | None => port =? mk_open_port m
              end in
    (mock_connect m ok, ok);
  mysql_get_character_set_info := mk_charset;
  mysql_get_ssl_cipher := mk_cipher;
  mysql_query_ex := fun m _ _ _ => (m, mk_query_rc m);
  mysql_store_result := fun m =>
    (m, if mk_has_result m then Some tt else None);
  mysql_error := mk_error;
  mysql_errno := mk_errno
|}.

Definition mock_handle : MYSQL :=
  mkMock false false 3306 33 None 1 false
         (lit "Table 'test.t' doesn't exist") 1146.

Definition mock_config : MXS_CONFIG := mkCONFIG None 1 5.

Definition tls_server : SERVER :=
  mkSERVER (lit "db1") (lit "10.0.0.5") 3306 0 8 true
           (Some (mkSSLConfig [] [] (lit "/etc/ca.pem"))).

(** The entry the cipher check logs. *)
Definition tls_error (server : SERVER) : log_entry :=
  MXS_ERROR (lit "An encrypted connection to '" ++ name server
             ++ lit "' could not be created, ensure that TLS is enabled on the target server.").

End Backend.

(* ================================================================== *)
(** * Part II: properties *)
(* ================================================================== *)

(** ** Connecting *)

Section ConnectFacts.
Import Str Backend.
Context `{Client}.
Variables (config : MXS_CONFIG) (con : MYSQL) (server : SERVER).
Variables (user passwd : Str.t).

Let r := mxs_mysql_real_connect config con server user passwd.
Let session := fst (transport_of config con server user passwd).
Let connected := snd (transport_of config con server user passwd).

(** The function splits on the outcome of the transport-level connect. *)
Lemma real_connect_unfold :
  r = if connected then
        let server1 :=
          set_charset server (mysql_get_character_set_info session) in
        if have_ssl server
           && match mysql_get_ssl_cipher session with
              | None => true | _ => false end
        then
          mkConnect None session
            (if warn_ssl_not_enabled server1
             then set_warn_ssl_not_enabled server1 false else server1)
            (logged r)
        else mkConnect (Some session) session server1 (logged r)
      else mkConnect None session server (logged r).
Proof.
  subst r session connected.
  unfold mxs_mysql_real_connect, transport_of.
  destruct (prepare config con server) as [con1 log1]; cbn [fst].
  destruct (transport_connect con1 server user passwd) as [[con2 ok] log2].
  cbn [fst snd].
  destruct ok; [|reflexivity].
  destruct (have_ssl server && _); [|reflexivity].
  cbn [warn_ssl_not_enabled set_charset].
  destruct (warn_ssl_not_enabled server); reflexivity.
Qed.

(** C2.  With TLS material configured and non-empty, a transport-level
    connect that succeeds on a session without a negotiated cipher makes
    [mxs_mysql_real_connect] return NULL. *)
Theorem real_connect_tls_without_cipher_is_null :
  have_ssl server = true ->
  connected = true ->
  mysql_get_ssl_cipher session = None ->
  returned r = None.
Proof.
  intros Hssl Hconn Hcipher.
  rewrite real_connect_unfold, Hconn, Hssl, Hcipher.
  reflexivity.
Qed.

(** C10.  Whenever the transport-level connect succeeds, the server's
    character set is the one the session reports, also when the call
    returns NULL because TLS was configured and no cipher was
    negotiated. *)
Theorem real_connect_charset_from_session :
  connected = true ->
  charset (server_after r) = mysql_get_character_set_info session
  /\ (have_ssl server = true ->
      mysql_get_ssl_cipher session = None ->
      returned r = None
      /\ charset (server_after r) = mysql_get_character_set_info session).
Proof.
  intros Hconn.
  assert (Hcs : charset (server_after r)
                = mysql_get_character_set_info session).
  { rewrite real_connect_unfold, Hconn.
    cbv zeta.
    destruct (have_ssl server && _); cbn [server_after]; [|reflexivity].
    destruct (warn_ssl_not_enabled _); reflexivity. }
  split; [exact Hcs|].
  intros Hssl Hcipher; split; [|exact Hcs].
  rewrite real_connect_unfold, Hconn, Hssl, Hcipher.
  reflexivity.
Qed.

End ConnectFacts.

Lemma real_connect_tls_without_cipher_is_null_witness :
  Backend.returned
    (Backend.mxs_mysql_real_connect Backend.mock_config Backend.mock_handle
       Backend.tls_server (Str.lit "maxuser") (Str.lit "maxpwd")) = None.
Proof.
  apply (@real_connect_tls_without_cipher_is_null Backend.mock_client);
    reflexivity.
Defined.

Lemma real_connect_charset_from_session_witness :
  Backend.charset
    (Backend.server_after
       (Backend.mxs_mysql_real_connect Backend.mock_config Backend.mock_handle
          Backend.tls_server (Str.lit "maxuser") (Str.lit "maxpwd"))) = 33.
Proof.
  apply (proj1 (@real_connect_charset_from_session Backend.mock_client
                  Backend.mock_config Backend.mock_handle Backend.tls_server
                  (Str.lit "maxuser") (Str.lit "maxpwd") eq_refl)).
Defined.

(** ** Querying *)

Section QueryFacts.
Import Str Backend.
Context `{Client}.
Variables (cnf : MXS_CONFIG) (conn : MYSQL) (query : Str.t).
Variables (errmsg_out : option Str.t) (errno_out : option Z).

(** A text without NUL is its own C string. *)
Lemma c_str_id (s : Str.t) :
  ~ In Chars.NUL s -> c_str s = s.
Proof.
  induction s as [|c s IH]; intros Hn; [reflexivity|].
  cbn [c_str].
  destruct (Ascii.eqb_spec c Chars.NUL) as [->|_].
  - exfalso; apply Hn; left; reflexivity.
  - f_equal; apply IH; intros Hin; apply Hn; right; exact Hin.
Qed.

(** C7, as amended.  When the query fails for good, [execute_query]
    returns no result; the message slot, when the caller passed one,
    holds the text "Query '<query>' failed: '<server message>'." with its
    closing full stop, both texts as C strings, and the number slot, when
    passed, holds the server's error number. *)
Theorem execute_query_failure_report :
  query_failed cnf conn query = true ->
  let r := execute_query cnf conn query errmsg_out errno_out in
  let failed_conn := conn_at_failure cnf conn query in
  rval r = None
  /\ errmsg_after r
     = option_map
         (fun _ => lit "Query '" ++ c_str query ++ lit "' failed: '"
                   ++ c_str (mysql_error failed_conn) ++ lit "'.")
         errmsg_out
  /\ errno_after r = option_map (fun _ => mysql_errno failed_conn) errno_out.
Proof.
  unfold query_failed, execute_query, conn_at_failure.
  destruct (mxs_mysql_query cnf conn (c_str query)) as [conn1 rc].
  destruct (rc =? 0).
  - destruct (mysql_store_result conn1) as [conn2 [res|]]; cbn [fst snd].
    + discriminate.
    + intros _; repeat split.
  - intros _; repeat split.
Qed.

End QueryFacts.

Lemma execute_query_failure_report_witness :
  Backend.errmsg_after
    (Backend.execute_query Backend.mock_config Backend.mock_handle
       (Str.lit "SELECT * FROM t") (Some []) (Some 0))
  = Some (Str.lit "Query 'SELECT * FROM t' failed: 'Table 'test.t' doesn't exist'.").
Proof.
  apply (proj1 (proj2
    (@execute_query_failure_report Backend.mock_client Backend.mock_config
       Backend.mock_handle (Str.lit "SELECT * FROM t") (Some []) (Some 0)
       eq_refl))).
Defined.

(** C7, as stated, fails: the text the failed call reports ends in a full
    stop that the claimed text does not have. *)
Lemma execute_query_text_has_full_stop :
  Backend.query_failed Backend.mock_config Backend.mock_handle
    (Str.lit "SELECT * FROM t") = true
  /\ Backend.errmsg_after
       (Backend.execute_query Backend.mock_config Backend.mock_handle
          (Str.lit "SELECT * FROM t") (Some []) (Some 0))
     <> Some (Backend.claimed_failure_text (Str.lit "SELECT * FROM t")
                (Backend.mysql_error
                   (Backend.conn_at_failure Backend.mock_config
                      Backend.mock_handle (Str.lit "SELECT * FROM t")))).
Proof.
  split; [reflexivity|].
  vm_compute; intros Heq; discriminate Heq.
Qed.

(** ** Pattern translation *)

Section PatternFacts.
Import Chars Str Ident.

Lemma put_at_cursor (done rest : Str.t) (old c : ascii) :
  put (done ++ old :: rest) (length done) c = Some (done ++ c :: rest).
Proof.
  unfold put.
  rewrite length_app; cbn [length].
  destruct (Nat.ltb_spec (length done) (length done + S (length rest)));
    [|lia].
  rewrite firstn_app, Nat.sub_diag, firstn_all; cbn [firstn].
  rewrite app_nil_r.
  replace (S (length done)) with (length done + 1)%nat by lia.
  rewrite skipn_app.
  rewrite skipn_all2 by lia.
  replace (length done + 1 - length done)%nat with 1%nat by lia.
  reflexivity.
Qed.

Lemma c_str_app_nul (out rest : Str.t) :
  ~ In NUL out -> c_str (out ++ NUL :: rest) = out.
Proof.
  induction out as [|c out IH]; intros Hn; cbn [app c_str].
  - reflexivity.
  - destruct (Ascii.eqb_spec c NUL) as [->|_].
    + exfalso; apply Hn; left; reflexivity.
    + f_equal; apply IH; intros Hin; apply Hn; right; exact Hin.
Qed.

Lemma emit_char_length (w : bool) (c : ascii) :
  (1 <= length (emit_char w c) <= 2)%nat.
Proof.
  unfold emit_char.
  destruct (is_pcre_special c); [cbn; lia|].
  destruct ((c =? "%")%char && w); cbn; lia.
Qed.

Lemma emit_char_no_nul (w : bool) (c : ascii) :
  c <> NUL -> ~ In NUL (emit_char w c).
Proof.
  intros Hc; unfold emit_char.
  destruct (is_pcre_special c).
  - intros [Hin|[Hin|[]]]; [discriminate Hin | congruence].
  - destruct ((c =? "%")%char && w).
    + intros [Hin|[Hin|[]]]; discriminate Hin.
    + intros [Hin|[]]; congruence.
Qed.

Lemma pattern_text_no_nul (w : bool) (pattern : Str.t) :
  ~ In NUL pattern -> ~ In NUL (pattern_text w pattern).
Proof.
  induction pattern as [|c m IH]; intros Hn; cbn [pattern_text flat_map].
  - intros [].
  - intros Hin; apply in_app_or in Hin as [Hin|Hin].
    + revert Hin; apply emit_char_no_nul.
      intros ->; apply Hn; left; reflexivity.
    + revert Hin; apply IH; intros Hin; apply Hn; right; exact Hin.
Qed.

Lemma pattern_text_cons (w : bool) (c : ascii) (m : Str.t) :
  pattern_text w (c :: m) = emit_char w c ++ pattern_text w m.
Proof. reflexivity. Qed.

Lemma emit_percent (w : bool) :
  emit_char w "%" = if w then lit ".*" else ["%"%char].
Proof. destruct w; reflexivity. Qed.

Lemma emit_special (w : bool) (c : ascii) :
  is_pcre_special c = true -> emit_char w c = ["\"%char; c].
Proof. intros Hs; unfold emit_char; rewrite Hs; reflexivity. Qed.

Lemma emit_plain (w : bool) (c : ascii) :
  is_pcre_special c = false -> c <> "%"%char -> emit_char w c = [c].
Proof.
  intros Hs Hc; unfold emit_char; rewrite Hs.
  destruct (Ascii.eqb_spec c "%"); [contradiction|reflexivity].
Qed.

Ltac close_loop_case Heq :=
  rewrite Heq; apply f_equal; apply f_equal2;
  [ apply f_equal2;
    [ rewrite <- ?app_assoc; reflexivity
    | rewrite ?length_app; cbn [length]; lia ]
  | try reflexivity ].

(** The loop writes the prescribed text behind the cells already written,
    provided the destination has two cells per character left, whenever
    the approach is the wildcard one or the name has no '%'. *)
Lemma name_to_pcre_loop_text (a : mxs_pcre_quote_approach_t) (mysql : Str.t) :
  forall (done rest : Str.t) (rv : mxs_mysql_name_kind_t),
    ~ In NUL mysql ->
    is_wildcard_approach a = true \/ has_percent mysql = false ->
    (2 * length mysql <= length rest)%nat ->
    exists rest',
      name_to_pcre_loop a mysql (done ++ rest) (length done) rv
      = Some (done ++ pattern_text (is_wildcard_approach a) mysql ++ rest',
              (length done
               + length (pattern_text (is_wildcard_approach a) mysql))%nat,
              if has_percent mysql then MXS_MYSQL_NAME_WITH_WILDCARD else rv)
      /\ (length rest'
          + length (pattern_text (is_wildcard_approach a) mysql))%nat
         = length rest.
Proof.
  induction mysql as [|c m IH]; intros done rest rv Hnul Hmode Hlen.
  - exists rest; cbn; rewrite Nat.add_0_r; split; [reflexivity|lia].
  - assert (Hc : c <> NUL) by (intros ->; apply Hnul; left; reflexivity).
    assert (Hm : ~ In NUL m) by (intros Hin; apply Hnul; right; exact Hin).
    cbn [length] in Hlen.
    destruct rest as [|r0 [|r1 rest0]]; cbn [length] in Hlen; try lia.
    rewrite pattern_text_cons.
    cbn [name_to_pcre_loop has_percent existsb].
    destruct (Ascii.eqb_spec c NUL) as [?|_]; [contradiction|].
    destruct (Ascii.eqb_spec c "%") as [->|Hpc].
    + rewrite emit_percent; cbn [orb].
      destruct Hmode as [Hw|Hp]; [|cbn in Hp; discriminate Hp].
      rewrite Hw in *.
      rewrite put_at_cursor.
      replace (done ++ "."%char :: r1 :: rest0)
        with ((done ++ ["."%char]) ++ r1 :: rest0)
        by (rewrite <- app_assoc; reflexivity).
      replace (S (length done)) with (length (done ++ ["."%char]))
        by (rewrite length_app; cbn; lia).
      rewrite put_at_cursor.
      replace ((done ++ ["."%char]) ++ "*"%char :: rest0)
        with ((done ++ lit ".*") ++ rest0)
        by (rewrite <- !app_assoc; reflexivity).
      replace (S (length (done ++ ["."%char])))
        with (length (done ++ lit ".*"))
        by (rewrite !length_app; cbn; lia).
      destruct (IH (done ++ lit ".*") rest0 MXS_MYSQL_NAME_WITH_WILDCARD Hm
                   (or_introl eq_refl)) as [rest' [Heq Hl]]; [lia|].
      exists rest'; split.
      * close_loop_case Heq.
        destruct (has_percent m); reflexivity.
      * rewrite length_app; cbn [length lit list_ascii_of_string] in *; lia.
    + cbn [orb].
      assert (Hmode' : is_wildcard_approach a = true \/ has_percent m = false).
      { destruct Hmode as [Hw|Hp]; [left; exact Hw|right].
        cbn [has_percent existsb] in Hp.
        apply orb_false_elim in Hp as [_ Hp]; exact Hp. }
      destruct (is_pcre_special c) eqn:Hsp.
      * rewrite (emit_special _ _ Hsp).
        rewrite put_at_cursor.
        replace (done ++ "\"%char :: r1 :: rest0)
          with ((done ++ ["\"%char]) ++ r1 :: rest0)
          by (rewrite <- app_assoc; reflexivity).
        replace (S (length done)) with (length (done ++ ["\"%char]))
          by (rewrite length_app; cbn; lia).
        rewrite put_at_cursor.
        replace ((done ++ ["\"%char]) ++ c :: rest0)
          with ((done ++ ["\"%char; c]) ++ rest0)
          by (rewrite <- !app_assoc; reflexivity).
        replace (S (length (done ++ ["\"%char])))
          with (length (done ++ ["\"%char; c]))
          by (rewrite !length_app; cbn; lia).
        destruct (IH (done ++ ["\"%char; c]) rest0 rv Hm Hmode')
          as [rest' [Heq Hl]]; [lia|].
        exists rest'; split.
        -- close_loop_case Heq.
        -- rewrite length_app; cbn [length] in *; lia.
      * rewrite (emit_plain _ _ Hsp Hpc).
        rewrite put_at_cursor.
        replace (done ++ c :: r1 :: rest0)
          with ((done ++ [c]) ++ r1 :: rest0)
          by (rewrite <- app_assoc; reflexivity).
        replace (S (length done)) with (length (done ++ [c]))
          by (rewrite length_app; cbn; lia).
        destruct (IH (done ++ [c]) (r1 :: rest0) rv Hm Hmode')
          as [rest' [Heq Hl]]; [cbn [length]; lia|].
        exists rest'; split.
        -- close_loop_case Heq.
        -- rewrite length_app; cbn [length] in *; lia.
Qed.

(** X8.  With the wildcard approach, or on a name without '%', the
    translation
    is the prescribed one: every special character escaped, '%' turned
    into ".*", the rest copied, and the kind tells whether a '%'
    occurred. *)
Lemma name_to_pcre_prescribed (a : mxs_pcre_quote_approach_t)
    (pcre mysql : Str.t) :
  ~ In NUL mysql ->
  is_wildcard_approach a = true \/ has_percent mysql = false ->
  (2 * length mysql < length pcre)%nat ->
  exists pcre',
    mxs_mysql_name_to_pcre pcre mysql a
    = Some (pcre', if has_percent mysql then MXS_MYSQL_NAME_WITH_WILDCARD
                   else MXS_MYSQL_NAME_WITHOUT_WILDCARD)
    /\ c_str pcre' = pattern_text (is_wildcard_approach a) mysql.
Proof.
  intros Hnul Hmode Hlen.
  destruct (name_to_pcre_loop_text a mysql [] pcre
              MXS_MYSQL_NAME_WITHOUT_WILDCARD Hnul Hmode)
    as [rest' [Heq Hl]]; [lia|].
  cbn [app length Nat.add] in Heq.
  unfold mxs_mysql_name_to_pcre; rewrite Heq.
  destruct rest' as [|r0 rest'']; [cbn [length] in Hl|].
  - assert (Hb : (length (pattern_text (is_wildcard_approach a) mysql)
                  <= 2 * length mysql)%nat).
    { clear. induction mysql as [|c m IH]; [cbn; lia|].
      cbn [pattern_text flat_map length]; rewrite length_app.
      pose proof (emit_char_length (is_wildcard_approach a) c).
      unfold pattern_text in IH; lia. }
    lia.
  - rewrite put_at_cursor.
    eexists; split; [reflexivity|].
    apply c_str_app_nul, pattern_text_no_nul, Hnul.
Qed.

(** C8 at the failing input.  With the verbatim approach the '%' of "50%"
    leaves its destination cell as the caller's buffer had it (here 'X')
    while the cursor moves on, where the claim prescribes the character
    itself; the wildcard examples of the claim come out as stated. *)
Theorem name_to_pcre_verbatim_percent_cell :
  option_map (fun r => (c_str (fst r), snd r))
    (mxs_mysql_name_to_pcre (lit "XXXXXXX") (lit "50%")
       MXS_PCRE_QUOTE_VERBATIM)
  = Some (lit "50X", MXS_MYSQL_NAME_WITH_WILDCARD)
  /\ pattern_text false (lit "50%") = lit "50%"
  /\ option_map (fun r => (c_str (fst r), snd r))
       (mxs_mysql_name_to_pcre (lit "XXXXXXX") (lit "50%")
          MXS_PCRE_QUOTE_WILDCARD)
     = Some (lit "50.*", MXS_MYSQL_NAME_WITH_WILDCARD)
  /\ option_map (fun r => (c_str (fst r), snd r))
       (mxs_mysql_name_to_pcre (lit "XXXXXXX") (lit "a_b")
          MXS_PCRE_QUOTE_WILDCARD)
     = Some (lit "a_b", MXS_MYSQL_NAME_WITHOUT_WILDCARD).
Proof.
  repeat split; vm_compute; reflexivity.
Qed.

End PatternFacts.

(** ** Packet decoding *)

Section PacketFacts.
Import Chars Str Packet.

Lemma u8_nonneg (x : Byte.byte) : 0 <= u8 x.
Proof. unfold u8; lia. Qed.

Lemma payload_len_nonneg (header : list Byte.byte) :
  0 <= MYSQL_GET_PAYLOAD_LEN header.
Proof.
  unfold MYSQL_GET_PAYLOAD_LEN, gw_mysql_get_byte3.
  repeat (apply Z.lor_nonneg; split);
    try apply Z.shiftl_nonneg; apply u8_nonneg.
Qed.

Lemma read_ok (b : list Byte.byte) (offset count : Z) (l : list Byte.byte) :
  read b offset count = Ok l ->
  0 <= offset /\ 0 <= count /\ offset + count <= len b
  /\ l = firstn (Z.to_nat count) (skipn (Z.to_nat offset) b).
Proof.
  unfold read, len.
  destruct (0 <=? offset) eqn:H1; [|discriminate].
  destruct (0 <=? count) eqn:H2; [|discriminate].
  destruct (offset + count <=? Z.of_nat (length b)) eqn:H3; [|discriminate].
  cbn [andb]; intros [= <-].
  apply Z.leb_le in H1, H2, H3; auto.
Qed.

(** The header fields do not depend on what follows the five bytes read. *)
Lemma header_fields (l : list Byte.byte) :
  MYSQL_GET_PAYLOAD_LEN (firstn 5 l) = MYSQL_GET_PAYLOAD_LEN l
  /\ MYSQL_GET_PACKET_NO (firstn 5 l) = MYSQL_GET_PACKET_NO l
  /\ MYSQL_GET_COMMAND (firstn 5 l) = MYSQL_GET_COMMAND l.
Proof.
  unfold MYSQL_GET_PAYLOAD_LEN, gw_mysql_get_byte3, MYSQL_GET_PACKET_NO,
    MYSQL_GET_COMMAND.
  rewrite !nth_firstn; cbn [Nat.ltb Nat.leb]; auto.
Qed.

Lemma next_ok (b : list Byte.byte) (it n it' : Z) :
  next b it n = Ok it' -> it' = it + n /\ it + n <= len b.
Proof.
  unfold next, len.
  destruct (Z.leb_spec (it + n) (Z.of_nat (length b))); [|discriminate].
  intros [= <-]; auto.
Qed.

(** The ERR block ends without a fault only on a declared payload of at
    least 3 bytes that lies inside the buffer, and it classifies the
    packet as an ERR packet. *)
Lemma decode_err_ok (b : list Byte.byte) (it payload_len : Z)
    (s : stringstream) (r : classification * stringstream) :
  decode_err b it payload_len s = Ok r ->
  3 <= payload_len /\ it + (payload_len - 1) <= len b
  /\ exists code message, fst r = ERR code message.
Proof.
  unfold decode_err, bind.
  destruct (read b it 1) as [e0|f]; [|discriminate].
  destruct (Z.ltb_spec payload_len 1); [discriminate|].
  destruct (read b it (payload_len - 1)) as [rest|f] eqn:Hrest; [|discriminate].
  destruct (Z.ltb_spec payload_len 3); [discriminate|].
  intros [= <-]; apply read_ok in Hrest as (_ & _ & Hfit & _).
  cbn [fst]; repeat split; eauto.
Qed.

(** The kind an iteration gives a packet goes with its command byte. *)
Lemma classified_by_command (b : list Byte.byte) (it1 payload_len cmd : Z)
    (s : stringstream) (r : classification * stringstream) :
  (if cmd =? 0 then Ok (OK, s << lit ", Command : OK")
   else if cmd =? 255 then decode_err b it1 payload_len s
   else if cmd =? 251 then
     Ok (GET_MORE_CLIENT_DATA, s << lit ", Command : GET_MORE_CLIENT_DATA")
   else Ok (ResultSet, s << lit ", Command : Result Set")) = Ok r ->
  command_byte (fst r) cmd.
Proof.
  destruct (Z.eqb_spec cmd 0) as [H0|H0]; [intros [= <-]; exact H0|].
  destruct (Z.eqb_spec cmd 255) as [H255|H255].
  { intros He; apply decode_err_ok in He as (_ & _ & code & message & ->).
    exact H255. }
  destruct (Z.eqb_spec cmd 251) as [H251|H251]; intros [= <-]; cbn; auto.
Qed.

(** What one iteration does to the loop variables. *)
Lemma decode_packet_ok (b : list Byte.byte) (st st' : state) :
  decode_packet b st = Ok st' ->
  exists p : DecodedPacket,
    it st' = it st + packet_size p
    /\ nRemaining st' = nRemaining st - packet_size p
    /\ decoded st' = decoded st ++ [p]
    /\ 0 <= payload_len p
    /\ 0 <= it st /\ it st + 5 <= len b
    /\ payload_len p = MYSQL_GET_PAYLOAD_LEN (skipn (Z.to_nat (it st)) b)
    /\ packet_no p = MYSQL_GET_PACKET_NO (skipn (Z.to_nat (it st)) b)
    /\ command_byte (command p)
         (MYSQL_GET_COMMAND (skipn (Z.to_nat (it st)) b)).
Proof.
  unfold decode_packet, bind.
  destruct (read b (it st) (MYSQL_HEADER_LEN + 1)) as [header|f] eqn:Hr;
    [|discriminate].
  apply read_ok in Hr as (Hit & _ & Hfit & ->).
  change (Z.to_nat (MYSQL_HEADER_LEN + 1)) with 5%nat.
  destruct (header_fields (skipn (Z.to_nat (it st)) b)) as (-> & -> & ->).
  set (rest := skipn (Z.to_nat (it st)) b).
  match goal with
  | |- match ?e with _ => _ end = _ -> _ => destruct e as [r|f] eqn:Hcls
  end; [|discriminate].
  apply classified_by_command in Hcls.
  destruct (next b (it st) _) as [it2|f] eqn:Hnext; [|discriminate].
  apply next_ok in Hnext as [-> _].
  intros [= <-].
  eexists (mkDecoded _ _ (fst r)); cbn [it nRemaining decoded payload_len
    packet_no command]; unfold packet_size; cbn [payload_len].
  pose proof (payload_len_nonneg rest).
  change (MYSQL_HEADER_LEN + 1) with 5 in Hfit.
  repeat split; try reflexivity; try assumption; lia.
Qed.

(** An iteration leaves the iterator inside the buffer. *)
Lemma decode_packet_inside (b : list Byte.byte) (st st' : state) :
  decode_packet b st = Ok st' -> it st' <= len b.
Proof.
  unfold decode_packet, bind.
  destruct (read b (it st) (MYSQL_HEADER_LEN + 1)) as [header|f];
    [|discriminate].
  match goal with
  | |- match ?e with _ => _ end = _ -> _ => destruct e as [r|f]
  end; [|discriminate].
  destruct (next b (it st) _) as [it2|f] eqn:Hnext; [|discriminate].
  apply next_ok in Hnext as [-> Hfit].
  intros [= <-]; exact Hfit.
Qed.

Lemma consumed_app (ps qs : list DecodedPacket) :
  consumed (ps ++ qs) = consumed ps + consumed qs.
Proof.
  unfold consumed.
  induction ps as [|p ps IH]; cbn [app fold_right]; lia.
Qed.

Lemma framing_app (b : list Byte.byte) (ps : list DecodedPacket) :
  forall (offset : Z) (p : DecodedPacket),
    framing b offset ps ->
    framed_at b (offset + consumed ps) p ->
    framing b offset (ps ++ [p]).
Proof.
  induction ps as [|q ps IH]; intros offset p Hps Hp; cbn [app framing].
  - cbn in Hp; rewrite Z.add_0_r in Hp; auto.
  - destruct Hps as [Hq Hps]; split; [exact Hq|].
    apply IH; [exact Hps|].
    replace (offset + packet_size q + consumed ps)
      with (offset + consumed (q :: ps)); [exact Hp|].
    unfold consumed; cbn [fold_right]; lia.
Qed.

(** An iteration that starts from a framed state, with the guard of the
    loop true, ends in a framed state. *)
Lemma decode_packet_framed (b : list Byte.byte) (st st' : state) :
  framed b st ->
  MYSQL_HEADER_LEN + 1 < nRemaining st ->
  decode_packet b st = Ok st' ->
  framed b st' /\ nRemaining st' <= nRemaining st - MYSQL_HEADER_LEN.
Proof.
  intros (Hit & Hrem & Hfr) Hguard Hstep.
  apply decode_packet_ok in Hstep
    as (p & Hit' & Hrem' & Hdec & Hpl & Hpos & _ & Hlen & Hno & Hcmd).
  unfold framed; rewrite Hdec, consumed_app.
  split; [|unfold packet_size in Hrem'; lia].
  repeat split.
  - unfold consumed in *; cbn [fold_right]; lia.
  - lia.
  - apply framing_app; [exact Hfr|].
    rewrite Z.add_0_l, <- Hit.
    unfold framed_at; repeat split; try assumption; lia.
Qed.

(** The loop, from a framed state and with fuel for the bytes that
    remain: it does not run out of fuel, it returns only when the guard is
    false, it stops early only on a fault of the iteration at hand, and
    the state it ends in is framed. *)
Lemma decode_loop_framed (b : list Byte.byte) (fuel : nat) :
  forall st : state,
    framed b st ->
    nRemaining st <= Z.of_nat fuel ->
    match decode_loop fuel b st with
    | Returned st' => nRemaining st' <= MYSQL_HEADER_LEN + 1 /\ framed b st'
    | Crashed f st' =>
        MYSQL_HEADER_LEN + 1 < nRemaining st' /\ framed b st'
        /\ decode_packet b st' = Fault f
    | Exhausted => False
    end.
Proof.
  induction fuel as [|fuel IH]; intros st Hfr Hfuel.
  - cbn [decode_loop].
    destruct (Z.ltb_spec (MYSQL_HEADER_LEN + 1) (nRemaining st)) as [Hg|Hg].
    + unfold MYSQL_HEADER_LEN in Hg; lia.
    + auto.
  - cbn [decode_loop].
    destruct (Z.ltb_spec (MYSQL_HEADER_LEN + 1) (nRemaining st)) as [Hg|Hg];
      [|auto].
    destruct (decode_packet b st) as [st'|f] eqn:Hstep; [|auto].
    destruct (decode_packet_framed b st st' Hfr Hg Hstep) as [Hfr' Hdec].
    apply IH; [exact Hfr'|].
    unfold MYSQL_HEADER_LEN in Hdec; lia.
Qed.

Lemma initial_framed (b : list Byte.byte) : framed b (initial b).
Proof.
  unfold framed, initial, len; cbn; repeat split; lia.
Qed.

(** C4, as amended.  The loop decodes while more than the header and the
    command byte remain (more than 5 bytes): it always ends; when it
    returns, at most 5 bytes remain, the iterator has advanced by exactly
    header length plus payload length per decoded packet, what remains is
    what lies beyond the iterator, and every decoded packet was read off
    a header with more than 5 bytes from it to the end of the buffer; it
    ends before that only on a fault of the current iteration.  A buffer
    of at most 5 bytes is left undecoded, the 7-byte OK packet decodes to
    one OK packet with nothing remaining, and up to 3 bytes after it are
    left alone. *)
Theorem decode_loop_framing (b : list Byte.byte) :
  match dbg_decode_response b with
  | Returned st => nRemaining st <= MYSQL_HEADER_LEN + 1 /\ framed b st
  | Crashed f st =>
      MYSQL_HEADER_LEN + 1 < nRemaining st /\ framed b st
      /\ decode_packet b st = Fault f
  | Exhausted => False
  end
  /\ (len b <= MYSQL_HEADER_LEN + 1 ->
      dbg_decode_response b = Returned (initial b))
  /\ dbg_decode_response (wire Byte.x00 [Byte.x00; Byte.x00; Byte.x00])
     = Returned (mkState 7 0
                   (mkStream (lit "Packet no: 0, Payload len: 3, Command : OK")
                             false)
                   [mkDecoded 0 3 OK])
  /\ (forall tail : list Byte.byte,
        (length tail < 4)%nat ->
        dbg_decode_response
          (wire Byte.x00 [Byte.x00; Byte.x00; Byte.x00] ++ tail)
        = Returned (mkState 7 (len tail)
                      (mkStream
                         (lit "Packet no: 0, Payload len: 3, Command : OK")
                         false)
                      [mkDecoded 0 3 OK])).
Proof.
  split; [|split; [|split]].
  - apply decode_loop_framed; [apply initial_framed|].
    unfold initial; cbn [nRemaining]; lia.
  - intros Hshort.
    unfold dbg_decode_response.
    destruct (length b) eqn:Hl; cbn [decode_loop];
      destruct (Z.ltb_spec (MYSQL_HEADER_LEN + 1) (nRemaining (initial b)))
        as [Hg|Hg]; try reflexivity;
      unfold initial, len in *; cbn [nRemaining] in Hg; lia.
  - vm_compute; reflexivity.
  - intros tail Htail.
    destruct tail as [|t1 [|t2 [|t3 [|t4 tail]]]];
      [vm_compute; reflexivity ..|cbn [length] in Htail; lia].
Qed.

(** C4, as stated, fails: a buffer that holds one complete 5-byte packet
    has more than the 4 header bytes remaining, so the claimed loop
    decodes it, while the code returns without decoding anything. *)
Lemma five_byte_packet_left_undecoded :
  len (wire Byte.x00 [Byte.x00]) = 5
  /\ decode_loop_claimed_guard (initial (wire Byte.x00 [Byte.x00])) = true
  /\ dbg_decode_response (wire Byte.x00 [Byte.x00])
     = Returned (mkState 0 5 (mkStream [] false) []).
Proof.
  repeat split.
Qed.

Lemma framing_consumed_nonneg (b : list Byte.byte)
    (ps : list DecodedPacket) :
  forall offset : Z, framing b offset ps -> 0 <= consumed ps.
Proof.
  unfold consumed.
  induction ps as [|p ps IH]; intros offset Hfr; cbn [fold_right]; [lia|].
  destruct Hfr as [(_ & _ & Hpl & _) Hfr].
  apply IH in Hfr.
  pose proof (payload_len_nonneg (skipn (Z.to_nat offset) b)).
  set (others := fold_right _ 0 ps) in *.
  unfold packet_size, MYSQL_HEADER_LEN; lia.
Qed.

(** The loop keeps the iterator inside the buffer. *)
Lemma decode_loop_inside (b : list Byte.byte) (fuel : nat) :
  forall st : state,
    it st <= len b ->
    match decode_loop fuel b st with
    | Returned st' => it st' <= len b
    | Crashed f st' => it st' <= len b
    | Exhausted => True
    end.
Proof.
  induction fuel as [|fuel IH]; intros st Hin; cbn [decode_loop];
    destruct (MYSQL_HEADER_LEN + 1 <? nRemaining st); try exact Hin;
    [exact I|].
  destruct (decode_packet b st) as [st'|f] eqn:Hstep; [|exact Hin].
  apply IH, (decode_packet_inside b st st' Hstep).
Qed.

(** The faults of the ERR block: the local array has no cell 0, the copy
    of the payload leaves the buffer, or the local array has no cell 2.
    The stream plays no part. *)
Lemma decode_err_fault (b : list Byte.byte) (it payload_len : Z)
    (s : stringstream) (f : fault) :
  0 <= it -> it + 1 <= len b ->
  decode_err b it payload_len s = Fault f ->
  (payload_len < 1 /\ f = ArrayOverrun 0 payload_len)
  \/ (1 <= payload_len /\ len b < it + (payload_len - 1)
      /\ f = BufferOverread it (payload_len - 1))
  \/ (1 <= payload_len < 3 /\ f = ArrayOverrun 2 payload_len).
Proof.
  intros Hit Hfit; unfold decode_err, bind.
  assert (H0 : read b it 1 = Ok (firstn 1 (skipn (Z.to_nat it) b))).
  { unfold read; fold (len b).
    destruct (Z.leb_spec 0 it); [|lia].
    destruct (Z.leb_spec (it + 1) (len b)); [|lia].
    reflexivity. }
  rewrite H0.
  destruct (Z.ltb_spec payload_len 1) as [Hlt|Hge];
    [intros [= <-]; left; auto|].
  unfold read at 1; fold (len b).
  destruct (Z.leb_spec 0 it); [|lia].
  destruct (Z.leb_spec 0 (payload_len - 1)); [|lia].
  destruct (Z.leb_spec (it + (payload_len - 1)) (len b)); cbn [andb].
  - destruct (Z.ltb_spec payload_len 3); [|discriminate].
    intros [= <-]; right; right; split; [lia|reflexivity].
  - intros [= <-]; right; left; auto.
Qed.

(** The ERR block stays inside the buffer when the declared payload, of
    at least the 3 bytes up to the error code, lies inside it. *)
Lemma decode_err_inside (b : list Byte.byte) (it payload_len : Z)
    (s : stringstream) :
  0 <= it ->
  3 <= payload_len ->
  it + (payload_len - 1) <= len b ->
  exists r, decode_err b it payload_len s = Ok r.
Proof.
  intros Hit Hpl Hfit.
  destruct (decode_err b it payload_len s) as [r|f] eqn:He; [eauto|].
  apply decode_err_fault in He; lia.
Qed.

(** In a framed state with the guard of the loop true, an iteration
    faults inside the ERR block or, on a packet of another kind, where it
    moves the iterator to the end of the packet. *)
Lemma decode_packet_fault (b : list Byte.byte) (st : state) (f : fault) :
  framed b st ->
  MYSQL_HEADER_LEN + 1 < nRemaining st ->
  decode_packet b st = Fault f ->
  (MYSQL_GET_COMMAND (skipn (Z.to_nat (it st)) b) = 255
   /\ exists s,
        decode_err b (it st + (MYSQL_HEADER_LEN + 1))
          (MYSQL_GET_PAYLOAD_LEN (skipn (Z.to_nat (it st)) b)) s = Fault f)
  \/ (MYSQL_GET_COMMAND (skipn (Z.to_nat (it st)) b) <> 255
      /\ f = IteratorPastEnd (it st)
               (MYSQL_HEADER_LEN
                + MYSQL_GET_PAYLOAD_LEN (skipn (Z.to_nat (it st)) b))
      /\ len b < it st + (MYSQL_HEADER_LEN
                          + MYSQL_GET_PAYLOAD_LEN (skipn (Z.to_nat (it st)) b))).
Proof.
  intros (Hit & Hrem & Hfr) Hguard.
  pose proof (framing_consumed_nonneg b _ _ Hfr) as Hpos.
  rewrite <- Hit in Hpos.
  unfold decode_packet, bind.
  assert (Hread : read b (it st) (MYSQL_HEADER_LEN + 1)
                  = Ok (firstn 5 (skipn (Z.to_nat (it st)) b))).
  { unfold read; fold (len b).
    destruct (Z.leb_spec 0 (it st)); [|lia].
    destruct (Z.leb_spec (it st + (MYSQL_HEADER_LEN + 1)) (len b)); [|lia].
    reflexivity. }
  rewrite Hread.
  destruct (header_fields (skipn (Z.to_nat (it st)) b)) as (-> & -> & ->).
  set (rest := skipn (Z.to_nat (it st)) b).
  assert (Hnext : forall r : classification * stringstream,
    MYSQL_GET_COMMAND rest <> 255 ->
    match next b (it st) (MYSQL_HEADER_LEN + MYSQL_GET_PAYLOAD_LEN rest) with
    | Ok it2 =>
        Ok (mkState it2
              (nRemaining st - MYSQL_HEADER_LEN - MYSQL_GET_PAYLOAD_LEN rest)
              (snd r)
              (decoded st ++ [mkDecoded (MYSQL_GET_PACKET_NO rest)
                                (MYSQL_GET_PAYLOAD_LEN rest) (fst r)]))
    | Fault f0 => Fault f0
    end = Fault f ->
    MYSQL_GET_COMMAND rest <> 255
    /\ f = IteratorPastEnd (it st)
             (MYSQL_HEADER_LEN + MYSQL_GET_PAYLOAD_LEN rest)
    /\ len b < it st + (MYSQL_HEADER_LEN + MYSQL_GET_PAYLOAD_LEN rest)).
  { intros r Hc; unfold next; fold (len b).
    destruct (Z.leb_spec (it st + (MYSQL_HEADER_LEN + MYSQL_GET_PAYLOAD_LEN rest))
                (len b)); [discriminate|].
    intros [= <-]; auto. }
  destruct (Z.eqb_spec (MYSQL_GET_COMMAND rest) 0) as [H0|H0].
  { intros Hf; right; apply (Hnext _ ltac:(lia) Hf). }
  destruct (Z.eqb_spec (MYSQL_GET_COMMAND rest) 255) as [H255|H255].
  - destruct (decode_err b _ _ _) as [r|f'] eqn:He.
    + apply decode_err_ok in He as (Hpl & Hfit & _).
      unfold next; fold (len b).
      destruct (Z.leb_spec
                  (it st + (MYSQL_HEADER_LEN + MYSQL_GET_PAYLOAD_LEN rest))
                  (len b)); [discriminate|].
      unfold MYSQL_HEADER_LEN in *; lia.
    + intros [= ->]; left; split; [exact H255|eauto].
  - destruct (Z.eqb_spec (MYSQL_GET_COMMAND rest) 251) as [H251|H251];
      intros Hf; right; apply (Hnext _ H255 Hf).
Qed.

(** C1 at the failing input.  A 6-byte buffer whose header declares a
    16-byte ERR payload: the ERR block copies 15 bytes from offset 5, and
    only one byte is left there.  With a declared payload of 1 or 0 the
    block goes beyond its local array instead. *)
Theorem err_branch_reads_past_buffer :
  dbg_decode_response
    [Byte.x10; Byte.x00; Byte.x00; Byte.x01; Byte.xff; Byte.x15]
  = Crashed (BufferOverread 5 15) (mkState 0 6 (mkStream [] false) [])
  /\ dbg_decode_response
       [Byte.x01; Byte.x00; Byte.x00; Byte.x01; Byte.xff; Byte.x15]
     = Crashed (ArrayOverrun 2 1) (mkState 0 6 (mkStream [] false) [])
  /\ dbg_decode_response
       [Byte.x00; Byte.x00; Byte.x00; Byte.x01; Byte.xff; Byte.x15]
     = Crashed (ArrayOverrun 0 0) (mkState 0 6 (mkStream [] false) []).
Proof.
  repeat split.
Qed.

End PacketFacts.

(** ** Hosts *)

Section HostFacts.
Import Chars Str Host.

(** *** Characters *)

Ltac by_cases_on_char c :=
  destruct c as [[] [] [] [] [] [] [] []]; vm_compute;
  repeat split; congruence.

Lemma hostname_char_plain (c : ascii) :
  hostname_char c = true ->
  isspace c = false /\ c <> ":"%char /\ c <> "["%char /\ c <> "/"%char.
Proof. by_cases_on_char c. Qed.

Lemma ipv4_char_hostname_char (c : ascii) :
  ipv4_char c = true -> hostname_char c = true.
Proof. by_cases_on_char c. Qed.

Lemma ipv6_char_plain (c : ascii) :
  ipv6_char c = true ->
  isspace c = false /\ c <> "]"%char /\ c <> "["%char /\ c <> "/"%char.
Proof. by_cases_on_char c. Qed.

Lemma isdigit_plain (c : ascii) :
  isdigit c = true -> isspace c = false /\ c <> ":"%char /\ c <> "]"%char.
Proof. by_cases_on_char c. Qed.

(** *** Strings *)

Lemma none_of_negb (f : ascii -> bool) (s : Str.t) :
  none_of (fun ch => negb (f ch)) s = all_of f s.
Proof.
  unfold none_of, all_of.
  induction s as [|c s IH]; [reflexivity|].
  cbn [existsb forallb]; rewrite <- IH.
  destruct (f c), (existsb _ s); reflexivity.
Qed.

Lemma all_of_In (f : ascii -> bool) (s : Str.t) (c : ascii) :
  all_of f s = true -> In c s -> f c = true.
Proof. intros Hall; apply forallb_forall; exact Hall. Qed.

Lemma find_char_absent (c : ascii) (s : Str.t) :
  ~ In c s -> find_char c s = length s.
Proof.
  induction s as [|x s IH]; intros Hn; [reflexivity|].
  cbn [find_char length].
  destruct (Ascii.eqb_spec x c) as [->|_].
  - exfalso; apply Hn; left; reflexivity.
  - f_equal; apply IH; intros Hin; apply Hn; right; exact Hin.
Qed.

Lemma find_char_first (c : ascii) (s rest : Str.t) :
  ~ In c s -> find_char c (s ++ c :: rest) = length s.
Proof.
  induction s as [|x s IH]; intros Hn; cbn [find_char length app].
  - rewrite Ascii.eqb_refl; reflexivity.
  - destruct (Ascii.eqb_spec x c) as [->|_].
    + exfalso; apply Hn; left; reflexivity.
    + f_equal; apply IH; intros Hin; apply Hn; right; exact Hin.
Qed.

Lemma count_char_absent (c : ascii) (s : Str.t) :
  ~ In c s -> count_char c s = O.
Proof.
  induction s as [|x s IH]; intros Hn; [reflexivity|].
  cbn [count_char].
  destruct (Ascii.eqb_spec x c) as [->|_].
  - exfalso; apply Hn; left; reflexivity.
  - apply IH; intros Hin; apply Hn; right; exact Hin.
Qed.

Lemma count_char_app (c : ascii) (s r : Str.t) :
  count_char c (s ++ r) = (count_char c s + count_char c r)%nat.
Proof.
  induction s as [|x s IH]; [reflexivity|].
  cbn [count_char app]; destruct (x =? c)%char; rewrite IH; reflexivity.
Qed.

Lemma range_prefix (s rest : Str.t) :
  range (s ++ rest) 0 (length s) = s.
Proof.
  unfold range; rewrite Nat.sub_0_r; cbn [skipn].
  rewrite firstn_app, Nat.sub_diag, firstn_all; cbn [firstn].
  apply app_nil_r.
Qed.

Lemma range_suffix (s rest : Str.t) :
  range (s ++ rest) (length s) (length (s ++ rest)) = rest.
Proof.
  unfold range.
  rewrite skipn_app, skipn_all, Nat.sub_diag; cbn [skipn app].
  rewrite length_app.
  replace (length s + length rest - length s)%nat with (length rest) by lia.
  apply firstn_all.
Qed.

Lemma back_app (s r : Str.t) : r <> [] -> back (s ++ r) = back r.
Proof.
  unfold back; intros Hr.
  induction s as [|x s IH]; [reflexivity|].
  cbn [app last]; rewrite IH.
  destruct (s ++ r) eqn:Heq; [|reflexivity].
  apply app_eq_nil in Heq as [_ ->]; contradiction.
Qed.

Lemma back_In (s : Str.t) : s <> [] -> In (back s) s.
Proof.
  unfold back; induction s as [|x s IH]; intros Hs; [contradiction|].
  destruct s as [|y s]; [left; reflexivity|].
  right; apply IH; discriminate.
Qed.

Lemma front_In (s : Str.t) : s <> [] -> In (front s) s.
Proof. destruct s; [contradiction|left; reflexivity]. Qed.

Lemma ltrim_id (s : Str.t) : isspace (front s) = false -> ltrim s = s.
Proof.
  destruct s as [|c s]; [reflexivity|].
  cbn [front hd ltrim]; intros ->; reflexivity.
Qed.

Lemma rtrim_snoc (s : Str.t) (c : ascii) :
  rtrim (s ++ [c]) = if isspace c then rtrim s else s ++ [c].
Proof.
  unfold rtrim; rewrite rev_app_distr; cbn [rev app ltrim].
  destruct (isspace c); [reflexivity|].
  cbn [rev]; rewrite rev_involutive; reflexivity.
Qed.

Lemma rtrim_id (s : Str.t) : isspace (back s) = false -> rtrim s = s.
Proof.
  unfold rtrim, back.
  rewrite <- (rev_involutive s) at 1 3.
  destruct (rev s) as [|c r]; [reflexivity|].
  cbn [rev]; rewrite last_last; intros Hc.
  cbn [ltrim]; rewrite Hc; reflexivity.
Qed.

Lemma trimmed_copy_id (s : Str.t) :
  isspace (front s) = false -> isspace (back s) = false ->
  trimmed_copy s = s.
Proof.
  intros Hf Hb; unfold trimmed_copy.
  rewrite (ltrim_id s Hf); apply rtrim_id, Hb.
Qed.

(** *** Classification *)

Lemma set_type_fields (h : Host) (b : bool) :
  m_address (set_type h b) = m_address h
  /\ m_port (set_type h b) = m_port h
  /\ m_org_input (set_type h b) = m_org_input h.
Proof.
  unfold set_type.
  destruct (is_valid_socket (m_address h)), (negb b),
    (is_valid_port (m_port h)), (is_valid_ipv4 (m_address h)),
    (is_valid_ipv6 (m_address h)), (is_valid_hostname (m_address h));
    repeat split.
Qed.

Lemma set_type_classified (h : Host) (b : bool) :
  m_type h = Invalid -> classified (set_type h b).
Proof.
  intros Hinv; unfold set_type, classified, network_type.
  destruct (is_valid_socket (m_address h)) eqn:Hs.
  - destruct (negb b); cbn; [exact Hs|rewrite Hinv; exact I].
  - destruct (is_valid_port (m_port h)) eqn:Hp; [|rewrite Hinv; exact I].
    destruct (is_valid_ipv4 (m_address h)) eqn:H4;
      [cbn; rewrite Hs, Hp, H4; auto|].
    destruct (is_valid_ipv6 (m_address h)) eqn:H6;
      [cbn; rewrite Hs, Hp, H4, H6; auto|].
    destruct (is_valid_hostname (m_address h)) eqn:Hn;
      [cbn; rewrite Hs, Hp, H4, H6, Hn; auto|].
    rewrite Hinv; exact I.
Qed.

Lemma set_type_network (h : Host) (b : bool) :
  m_type h = Invalid ->
  is_valid_socket (m_address h) = false ->
  is_valid_port (m_port h) = true ->
  m_type (set_type h b) = network_type (m_address h).
Proof.
  intros Hinv Hs Hp; unfold set_type, network_type; rewrite Hs, Hp.
  destruct (is_valid_ipv4 (m_address h)); [reflexivity|].
  destruct (is_valid_ipv6 (m_address h)); [reflexivity|].
  destruct (is_valid_hostname (m_address h)); [reflexivity|exact Hinv].
Qed.

Lemma set_type_socket (h : Host) :
  is_valid_socket (m_address h) = true ->
  m_type (set_type h false) = UnixDomainSocket.
Proof. intros Hs; unfold set_type; rewrite Hs; reflexivity. Qed.

Lemma produced_classified (u : Z) (h : Host) : produced u h -> classified h.
Proof.
  intros [in_|addr port].
  - unfold from_string.
    destruct (empty (trimmed_copy in_)); [exact I|].
    destruct (_ =? _)%nat; [|exact I].
    apply set_type_classified; reflexivity.
  - unfold from_addr_port.
    destruct (negb (empty addr) && _); [|exact I].
    apply set_type_classified; reflexivity.
Qed.

Lemma is_valid_port_range (p : Z) :
  is_valid_port p = true <-> 0 < p < 65536.
Proof.
  unfold is_valid_port; change (Z.shiftl 1 16) with 65536.
  rewrite andb_true_iff, !Z.ltb_lt; reflexivity.
Qed.

Lemma is_valid_socket_shape (a : Str.t) :
  is_valid_socket a = true ->
  front a = "/"%char /\ back a <> "/"%char /\ a <> [].
Proof.
  unfold is_valid_socket; intros Hs.
  apply andb_prop in Hs as [Hf Hb].
  apply Ascii.eqb_eq in Hf.
  apply negb_true_iff, Ascii.eqb_neq in Hb.
  repeat split; try assumption.
  intros ->; discriminate Hf.
Qed.

(** An absent port text leaves the port as it was initialised. *)
Lemma from_string_port_absent (u : Z) (in_ : Str.t) :
  sc_port_part (scan_input (trimmed_copy in_)) = [] ->
  m_port (from_string u in_) = u.
Proof.
  intros Habs; unfold from_string.
  destruct (empty (trimmed_copy in_)); [reflexivity|].
  destruct (_ =? _)%nat; [|reflexivity].
  destruct (set_type_fields
              (mkHost (sc_address (scan_input (trimmed_copy in_)))
                 (if negb (empty (sc_port_part (scan_input (trimmed_copy in_))))
                  then if all_of isdigit
                            (sc_port_part (scan_input (trimmed_copy in_)))
                       then atoi (sc_port_part (scan_input (trimmed_copy in_)))
                       else -1
                  else u) Invalid in_)
              (negb (empty (sc_port_part (scan_input (trimmed_copy in_))))))
    as (_ & -> & _).
  cbn [m_port]; rewrite Habs; reflexivity.
Qed.

(** C3.  For every host either constructor produces: type
    UnixDomainSocket means the address begins with '/' and does not end
    with '/'; types HostName, IPV4 and IPV6 mean 0 < port < 65536; and an
    address that is not a unix-socket path, however well-formed, gets type
    Invalid when its port is outside that range, which is where an absent
    port text leaves it: the port then keeps its initial value, a
    parameter here, taken to be outside the range. *)
Theorem host_type_invariant (u : Z) (h : Host) :
  produced u h ->
  (m_type h = UnixDomainSocket ->
   front (m_address h) = "/"%char /\ back (m_address h) <> "/"%char)
  /\ (is_network_type (m_type h) = true -> 0 < m_port h < 65536)
  /\ (is_valid_socket (m_address h) = false ->
      ~ (0 < m_port h < 65536) -> m_type h = Invalid)
  /\ (forall in_ : Str.t,
        h = from_string u in_ ->
        sc_port_part (scan_input (trimmed_copy in_)) = [] ->
        ~ (0 < u < 65536) ->
        is_valid_socket (m_address h) = false ->
        m_type h = Invalid).
Proof.
  intros Hprod.
  pose proof (produced_classified u h Hprod) as Hcl.
  unfold classified in Hcl.
  assert (Hthird : is_valid_socket (m_address h) = false ->
                   ~ (0 < m_port h < 65536) -> m_type h = Invalid).
  { intros Hs Hp; rewrite <- is_valid_port_range in Hp.
    destruct (m_type h); try reflexivity;
      [congruence | destruct Hcl as (_ & Hv & _); congruence ..]. }
  repeat split.
  - apply is_valid_socket_shape; rewrite H in Hcl; exact Hcl.
  - apply is_valid_socket_shape; rewrite H in Hcl; exact Hcl.
  - destruct (m_type h); try discriminate;
      destruct Hcl as (_ & Hv & _); apply is_valid_port_range in Hv; lia.
  - destruct (m_type h); try discriminate;
      destruct Hcl as (_ & Hv & _); apply is_valid_port_range in Hv; lia.
  - exact Hthird.
  - intros in_ -> Habs Hu Hs.
    apply Hthird; [exact Hs|].
    rewrite (from_string_port_absent u in_ Habs); exact Hu.
Qed.

End HostFacts.

Lemma host_type_invariant_witness :
  0 < Host.m_port (Host.from_string (-1) (Str.lit "127.0.0.1:3306")) < 65536.
Proof.
  apply (proj1 (proj2 (host_type_invariant (-1) _
           (Host.produced_from_string (-1) (Str.lit "127.0.0.1:3306"))))).
  reflexivity.
Defined.

(** C9 at the failing inputs.  The text constructor reaches [set_type]
    with an empty address for ":80", "[]" and "[", so the shape validators
    take the first character of an empty string; the two-argument
    constructor does not classify an empty address. *)
Theorem text_constructor_classifies_empty_address :
  (Host.reaches_set_type (Str.lit ":80") = true
   /\ Host.address_at_set_type (Str.lit ":80") = [])
  /\ (Host.reaches_set_type (Str.lit "[]") = true
      /\ Host.address_at_set_type (Str.lit "[]") = [])
  /\ (Host.reaches_set_type (Str.lit "[") = true
      /\ Host.address_at_set_type (Str.lit "[") = [])
  /\ (forall port : Z,
        Host.from_addr_port [] port = Host.mkHost [] port Host.Invalid []).
Proof.
  repeat split.
Qed.

(** ** Formatting and parsing back *)

Section RoundTripFacts.
Import Chars Str Host.
Variable u : Z.

Lemma port_text_all : forallb port_text_ok valid_ports = true.
Proof. vm_compute; reflexivity. Qed.

Lemma count_up_In (n : nat) :
  forall first p : Z,
    first <= p < first + Z.of_nat n -> In p (count_up n first).
Proof.
  induction n as [|n IH]; intros first p Hp; [lia|].
  cbn [count_up].
  destruct (Z.eq_dec first p) as [->|Hne]; [left; reflexivity|].
  right; apply IH; lia.
Qed.

Lemma port_text (p : Z) :
  is_valid_port p = true ->
  dec p <> [] /\ all_of isdigit (dec p) = true /\ atoi (dec p) = p.
Proof.
  intros Hp; apply is_valid_port_range in Hp.
  assert (Hin : In p valid_ports).
  { unfold valid_ports; apply count_up_In; lia. }
  pose proof (proj1 (forallb_forall _ _) port_text_all p Hin) as Hok.
  unfold port_text_ok in Hok.
  apply andb_prop in Hok as [Hok Hat].
  apply andb_prop in Hok as [Hne Hdig].
  repeat split.
  - intros Heq; rewrite Heq in Hne; discriminate Hne.
  - exact Hdig.
  - apply Z.eqb_eq, Hat.
Qed.

Lemma digits_back_plain (s : Str.t) :
  all_of isdigit s = true -> isspace (back s) = false.
Proof.
  intros Hd; destruct s as [|c s]; [reflexivity|].
  apply isdigit_plain, (all_of_In _ _ _ Hd), back_In; discriminate.
Qed.

Lemma digits_no (c : ascii) (s : Str.t) :
  all_of isdigit s = true -> isdigit c = false -> ~ In c s.
Proof.
  intros Hd Hc Hin; rewrite (all_of_In _ _ _ Hd Hin) in Hc; discriminate.
Qed.

Lemma empty_false (s : Str.t) : s <> [] -> empty s = false.
Proof. destruct s; [contradiction|reflexivity]. Qed.

(** The text "address:port" of a network address without colons is taken
    apart into the address and the port again. *)
Lemma from_string_addr_port (a : Str.t) (p : Z) :
  a <> [] ->
  all_of hostname_char a = true ->
  is_valid_port p = true ->
  from_string u (a ++ ":"%char :: dec p)
  = set_type (mkHost a p Invalid (a ++ ":"%char :: dec p)) true.
Proof.
  intros Ha Hch Hp.
  destruct (port_text p Hp) as (Hne & Hdig & Hat).
  set (input := a ++ ":"%char :: dec p).
  assert (Hcolon_a : ~ In ":"%char a).
  { intros Hin.
    destruct (hostname_char_plain _ (all_of_In _ _ _ Hch Hin)) as (_ & Hc & _).
    congruence. }
  assert (Hcolon_d : ~ In ":"%char (dec p))
    by (apply digits_no; [exact Hdig|reflexivity]).
  assert (Hfront : hostname_char (front input) = true).
  { unfold input; destruct a as [|c a']; [contradiction|].
    apply (all_of_In _ _ _ Hch); left; reflexivity. }
  assert (Htrim : trimmed_copy input = input).
  { apply trimmed_copy_id.
    - apply hostname_char_plain, Hfront.
    - unfold input; rewrite back_app by discriminate.
      change (":"%char :: dec p) with ([":"%char] ++ dec p).
      rewrite back_app by exact Hne.
      apply digits_back_plain, Hdig. }
  assert (Hlen : length input = (length a + S (length (dec p)))%nat)
    by (unfold input; rewrite length_app; reflexivity).
  assert (Hdlen : (0 < length (dec p))%nat)
    by (destruct (dec p); [contradiction|cbn; lia]).
  assert (Hscan : scan_input input = mkScan a (dec p) (length input)).
  { unfold scan_input.
    destruct (Ascii.eqb_spec (front input) "[") as [Heq|_].
    { destruct (hostname_char_plain _ Hfront) as (_ & _ & Hb & _).
      contradiction. }
    assert (Hcount : count_char ":" input = 1%nat).
    { unfold input; rewrite count_char_app; cbn [count_char].
      rewrite Ascii.eqb_refl, !count_char_absent by assumption.
      reflexivity. }
    assert (H6 : is_valid_ipv6 input = false)
      by (unfold is_valid_ipv6; rewrite Hcount; reflexivity).
    rewrite H6.
    assert (Hfind : find_char ":" input = length a)
      by (apply find_char_first; exact Hcolon_a).
    rewrite Hfind.
    destruct (Nat.eqb_spec (length a) (length input)); [lia|].
    destruct (Nat.eqb_spec (S (length a)) (length input)); [lia|].
    cbn [negb andb]; f_equal.
    - apply range_prefix.
    - unfold input.
      replace (a ++ ":"%char :: dec p) with ((a ++ [":"%char]) ++ dec p)
        by (rewrite <- app_assoc; reflexivity).
      replace (S (length a)) with (length (a ++ [":"%char]))
        by (rewrite length_app; cbn; lia).
      apply range_suffix. }
  unfold from_string.
  rewrite Htrim, (empty_false input), Hscan;
    [|unfold input; destruct a; [contradiction|discriminate]].
  cbn [sc_ite sc_port_part sc_address].
  rewrite Nat.eqb_refl, (empty_false _ Hne), Hdig, Hat.
  reflexivity.
Qed.

(** The text "[address]:port" of an IPv6 address is taken apart into the
    address and the port again. *)
Lemma from_string_bracketed (a : Str.t) (p : Z) :
  all_of ipv6_char a = true ->
  is_valid_port p = true ->
  from_string u (["["%char] ++ a ++ lit "]:" ++ dec p)
  = set_type (mkHost a p Invalid (["["%char] ++ a ++ lit "]:" ++ dec p)) true.
Proof.
  intros Hch Hp.
  destruct (port_text p Hp) as (Hne & Hdig & Hat).
  set (input := ["["%char] ++ a ++ lit "]:" ++ dec p).
  assert (Hclose_a : ~ In "]"%char a).
  { intros Hin.
    destruct (ipv6_char_plain _ (all_of_In _ _ _ Hch Hin)) as (_ & Hc & _).
    congruence. }
  assert (Htrim : trimmed_copy input = input).
  { apply trimmed_copy_id; [reflexivity|].
    unfold input.
    replace (["["%char] ++ a ++ lit "]:" ++ dec p)
      with ((["["%char] ++ a ++ lit "]:") ++ dec p)
      by (rewrite <- !app_assoc; reflexivity).
    rewrite back_app by exact Hne.
    apply digits_back_plain, Hdig. }
  assert (Hlen : length input = (length a + 3 + length (dec p))%nat)
    by (unfold input; cbn [app length]; rewrite !length_app; cbn; lia).
  assert (Hdlen : (0 < length (dec p))%nat)
    by (destruct (dec p); [contradiction|cbn; lia]).
  assert (Hscan : scan_input input = mkScan a (dec p) (length input)).
  { unfold scan_input.
    change (front input) with "["%char; rewrite Ascii.eqb_refl.
    assert (Hfind : find_char "]" input = S (length a)).
    { unfold input; cbn [app find_char].
      change ("[" =? "]")%char with false; cbn iota.
      f_equal; apply (find_char_first "]" a (":"%char :: dec p) Hclose_a). }
    rewrite Hfind.
    destruct (Nat.eqb_spec (S (length a)) (length input)); [lia|].
    destruct (Nat.eqb_spec (S (S (length a))) (length input)); [lia|].
    destruct (Nat.eqb_spec (S (S (S (length a)))) (length input)); [lia|].
    assert (Hnth : nth (S (S (length a))) input NUL = ":"%char).
    { unfold input; cbn [app nth].
      replace (S (length a)) with (length a + 1)%nat by lia.
      rewrite app_nth2_plus; reflexivity. }
    rewrite Hnth, Ascii.eqb_refl; cbn [negb andb]; f_equal.
    - unfold range, input; cbn [app skipn].
      replace (S (length a) - 1)%nat with (length a) by lia.
      rewrite firstn_app, Nat.sub_diag, firstn_all; cbn [firstn].
      apply app_nil_r.
    - unfold input.
      replace (["["%char] ++ a ++ lit "]:" ++ dec p)
        with ((["["%char] ++ a ++ lit "]:") ++ dec p)
        by (rewrite <- !app_assoc; reflexivity).
      replace (S (S (S (length a))))
        with (length (["["%char] ++ a ++ lit "]:"))
        by (cbn [app length]; rewrite length_app; cbn; lia).
      apply range_suffix. }
  unfold from_string.
  rewrite Htrim, (empty_false input), Hscan; [|discriminate].
  cbn [sc_ite sc_port_part sc_address].
  rewrite Nat.eqb_refl, (empty_false _ Hne), Hdig, Hat.
  reflexivity.
Qed.

(** The text of a socket path without colon and without whitespace at
    its end is taken as the address, with no port. *)
Lemma from_string_socket (a : Str.t) :
  is_valid_socket a = true ->
  ~ In ":"%char a ->
  isspace (back a) = false ->
  from_string u a = mkHost a u UnixDomainSocket a.
Proof.
  intros Hs Hcolon Hback.
  destruct (is_valid_socket_shape a Hs) as (Hf & _ & Hne).
  assert (Htrim : trimmed_copy a = a)
    by (apply trimmed_copy_id; [rewrite Hf; reflexivity|exact Hback]).
  assert (Hscan : scan_input a = mkScan a [] (length a)).
  { unfold scan_input; rewrite Hf.
    change ("/" =? "[")%char with false; cbn iota.
    assert (H6 : is_valid_ipv6 a = false).
    { unfold is_valid_ipv6.
      destruct a as [|c a']; [contradiction|].
      cbn [front hd] in Hf; subst c.
      cbn [none_of existsb]; rewrite andb_false_r; reflexivity. }
    rewrite H6, (find_char_absent _ _ Hcolon), Nat.eqb_refl.
    cbn [negb andb]; f_equal.
    apply (range_prefix a []) || (rewrite <- (app_nil_r a) at 1;
                                  apply range_prefix). }
  unfold from_string.
  rewrite Htrim, (empty_false a Hne), Hscan.
  cbn [sc_ite sc_port_part sc_address empty negb].
  rewrite Nat.eqb_refl.
  unfold set_type; cbn [m_address]; rewrite Hs; reflexivity.
Qed.

(** *** What the type says about the characters of the address *)

Lemma all_of_impl (f g : ascii -> bool) (s : Str.t) :
  (forall c, f c = true -> g c = true) ->
  all_of f s = true -> all_of g s = true.
Proof.
  intros Hfg Hf; apply forallb_forall; intros c Hin.
  apply Hfg, (all_of_In _ _ _ Hf Hin).
Qed.

Lemma ipv4_address (a : Str.t) :
  is_valid_ipv4 a = true -> a <> [] /\ all_of hostname_char a = true.
Proof.
  unfold is_valid_ipv4; intros Hv.
  apply andb_prop in Hv as [Hv _].
  apply andb_prop in Hv as [Hch Hlen].
  apply andb_prop in Hlen as [_ Hlen]; apply Nat.leb_le in Hlen.
  split; [intros ->; cbn in Hlen; lia|].
  apply (all_of_impl ipv4_char); [apply ipv4_char_hostname_char|exact Hch].
Qed.

Lemma hostname_address (a : Str.t) :
  is_valid_hostname a = true -> a <> [] /\ all_of hostname_char a = true.
Proof.
  unfold is_valid_hostname; intros Hv.
  apply andb_prop in Hv as [Hv Hlen].
  apply andb_prop in Hv as [Hch _].
  apply andb_prop in Hlen as [_ Hlen]; apply Nat.ltb_lt in Hlen.
  split; [intros ->; cbn in Hlen; lia|].
  rewrite <- (none_of_negb hostname_char); exact Hch.
Qed.

Lemma ipv6_address (a : Str.t) :
  is_valid_ipv6 a = true -> all_of ipv6_char a = true.
Proof.
  unfold is_valid_ipv6; intros Hv.
  apply andb_prop in Hv as [Hv _].
  apply andb_prop in Hv as [_ Hch].
  rewrite <- (none_of_negb ipv6_char); exact Hch.
Qed.

Lemma network_type_cases (a : Str.t) :
  match network_type a with
  | IPV4 => is_valid_ipv4 a = true
  | IPV6 => is_valid_ipv6 a = true
  | HostName => is_valid_hostname a = true
  | _ => True
  end.
Proof.
  unfold network_type.
  destruct (is_valid_ipv4 a); [reflexivity|].
  destruct (is_valid_ipv6 a); [reflexivity|].
  destruct (is_valid_hostname a); [reflexivity|exact I].
Qed.

(** A host of a network type goes through its text unchanged. *)
Lemma network_host_round_trip (h : Host) :
  classified h ->
  is_network_type (m_type h) = true ->
  same_host (from_string u (format h)) h.
Proof.
  intros Hcl Hnet.
  assert (Hfacts : is_valid_socket (m_address h) = false
                   /\ is_valid_port (m_port h) = true
                   /\ network_type (m_address h) = m_type h).
  { unfold classified in Hcl.
    destruct (m_type h); try discriminate Hnet; exact Hcl. }
  destruct Hfacts as (Hs & Hp & Hty).
  pose proof (network_type_cases (m_address h)) as Hshape.
  rewrite Hty in Hshape.
  assert (Hparsed : exists org,
            from_string u (format h)
            = set_type (mkHost (m_address h) (m_port h) Invalid org) true).
  { unfold format.
    destruct (m_type h); try discriminate Hnet.
    - destruct (hostname_address _ Hshape) as [Hne Hch].
      eexists; apply from_string_addr_port; assumption.
    - destruct (ipv4_address _ Hshape) as [Hne Hch].
      eexists; apply from_string_addr_port; assumption.
    - eexists; apply from_string_bracketed;
        [apply ipv6_address, Hshape|exact Hp]. }
  destruct Hparsed as [org ->].
  destruct (set_type_fields (mkHost (m_address h) (m_port h) Invalid org) true)
    as (Ha & Hpo & _).
  unfold same_host; rewrite Ha, Hpo.
  rewrite set_type_network by (cbn; assumption || reflexivity).
  cbn [m_address m_port]; auto.
Qed.

(** *** Socket paths that do not come back *)

Lemma ltrim_length (s : Str.t) : (length (ltrim s) <= length s)%nat.
Proof.
  induction s as [|c s IH]; [cbn; lia|].
  cbn [ltrim]; destruct (isspace c); cbn [length] in *; lia.
Qed.

Lemma rtrim_length (s : Str.t) : (length (rtrim s) <= length s)%nat.
Proof.
  unfold rtrim; rewrite length_rev.
  rewrite <- (length_rev s); apply ltrim_length.
Qed.

Lemma rtrim_shorter (s : Str.t) :
  s <> [] -> isspace (back s) = true ->
  (length (rtrim s) < length s)%nat.
Proof.
  intros Hne; unfold back.
  destruct (exists_last Hne) as (s' & c & ->).
  rewrite last_last, rtrim_snoc; intros ->.
  rewrite length_app; cbn [length].
  pose proof (rtrim_length s'); lia.
Qed.

Lemma find_char_present (c : ascii) (s : Str.t) :
  In c s -> (find_char c s < length s)%nat.
Proof.
  induction s as [|x s IH]; intros Hin; [contradiction|].
  cbn [find_char length].
  destruct (Ascii.eqb_spec x c) as [_|Hne]; [lia|].
  destruct Hin as [Heq|Hin]; [contradiction|].
  apply IH in Hin; lia.
Qed.

Lemma range_length (s : Str.t) (first last : nat) :
  (length (range s first last) <= last - first)%nat
  /\ (length (range s first last) <= length s)%nat.
Proof.
  unfold range; rewrite length_firstn, length_skipn; lia.
Qed.

(** The address the text constructor stores is cut out of the trimmed
    input; behind a leading '/' it ends at the first colon. *)
Lemma from_string_address (in_ : Str.t) :
  m_address (from_string u in_)
  = if empty (trimmed_copy in_) then []
    else sc_address (scan_input (trimmed_copy in_)).
Proof.
  unfold from_string.
  destruct (empty (trimmed_copy in_)); [reflexivity|].
  destruct (_ =? _)%nat; [|reflexivity].
  match goal with
  | |- m_address (set_type ?h ?b) = _ =>
      destruct (set_type_fields h b) as (-> & _ & _)
  end.
  reflexivity.
Qed.

Lemma scan_address_length (s : Str.t) :
  (length (sc_address (scan_input s)) <= length s)%nat.
Proof.
  unfold scan_input.
  repeat match goal with
         | |- context [if ?c then _ else _] => destruct c
         end; cbn [sc_address]; try apply range_length; lia.
Qed.

Lemma scan_address_slash (s : Str.t) :
  front s = "/"%char ->
  (length (sc_address (scan_input s)) <= find_char ":" s)%nat.
Proof.
  intros Hf; unfold scan_input; rewrite Hf.
  change ("/" =? "[")%char with false; cbn iota.
  assert (H6 : is_valid_ipv6 s = false).
  { unfold is_valid_ipv6.
    destruct s as [|c s']; [reflexivity|].
    cbn [front hd] in Hf; subst c.
    cbn [none_of existsb]; rewrite andb_false_r; reflexivity. }
  rewrite H6.
  destruct (negb _ && negb _); cbn [sc_address];
    pose proof (range_length s 0 (find_char ":" s)); lia.
Qed.

Lemma socket_host_comes_back_only_if (a : Str.t) (p : Z) :
  is_valid_socket a = true ->
  m_address (from_string u a) = a ->
  m_port (from_string u a) = p ->
  ~ In ":"%char a /\ isspace (back a) = false /\ p = u.
Proof.
  intros Hs Haddr Hport.
  destruct (is_valid_socket_shape a Hs) as (Hf & _ & Hne).
  assert (Hltrim : ltrim a = a) by (apply ltrim_id; rewrite Hf; reflexivity).
  assert (Hback : isspace (back a) = false).
  { destruct (isspace (back a)) eqn:Hb; [exfalso|reflexivity].
    pose proof (rtrim_shorter a Hne Hb) as Hshort.
    rewrite from_string_address in Haddr.
    unfold trimmed_copy in Haddr; rewrite Hltrim in Haddr.
    destruct (empty (rtrim a)).
    - apply Hne; symmetry; exact Haddr.
    - pose proof (scan_address_length (rtrim a)) as Hle.
      rewrite Haddr in Hle; lia. }
  assert (Htrim : trimmed_copy a = a)
    by (apply trimmed_copy_id; [rewrite Hf; reflexivity|exact Hback]).
  assert (Hcolon : ~ In ":"%char a).
  { intros Hin; apply find_char_present in Hin.
    rewrite from_string_address, Htrim, (empty_false a Hne) in Haddr.
    pose proof (scan_address_slash a Hf) as Hle.
    rewrite Haddr in Hle; lia. }
  repeat split; try assumption.
  rewrite (from_string_socket a Hs Hcolon Hback) in Hport.
  symmetry; exact Hport.
Qed.

(** C5, as amended.  A host of type HostName, IPV4 or IPV6 formatted and
    parsed back is the same host (address, port and type); a host of type
    UnixDomainSocket is, exactly when its address has no ':', does not end
    in whitespace, and its port is the initial port value. *)
Theorem format_parse_round_trip (h : Host) :
  produced u h ->
  (is_network_type (m_type h) = true ->
   same_host (from_string u (format h)) h)
  /\ (m_type h = UnixDomainSocket ->
      (same_host (from_string u (format h)) h
       <-> ~ In ":"%char (m_address h)
           /\ isspace (back (m_address h)) = false
           /\ m_port h = u)).
Proof.
  intros Hprod.
  pose proof (produced_classified u h Hprod) as Hcl.
  split.
  - apply network_host_round_trip, Hcl.
  - intros Hty.
    unfold classified in Hcl; rewrite Hty in Hcl.
    unfold format; rewrite Hty; split.
    + intros (Haddr & Hport & _).
      apply (socket_host_comes_back_only_if _ _ Hcl Haddr Hport).
    + intros (Hcolon & Hback & Hport).
      rewrite (from_string_socket _ Hcl Hcolon Hback).
      unfold same_host; cbn [m_address m_port m_type]; auto.
Qed.

End RoundTripFacts.

Lemma format_parse_round_trip_witness :
  Host.same_host
    (Host.from_string (-1)
       (Host.format (Host.from_string (-1) (Str.lit "[::1]:4000"))))
    (Host.from_string (-1) (Str.lit "[::1]:4000")).
Proof.
  apply (proj1 (format_parse_round_trip (-1) _
           (Host.produced_from_string (-1) (Str.lit "[::1]:4000")))).
  reflexivity.
Defined.

(** C5, as stated, fails: the bracketed text "[/tmp/a:b]" gives a host of
    type UnixDomainSocket with address "/tmp/a:b", which is formatted as
    the bare address and parsed back as an Invalid host with address
    "/tmp/a"; a socket host made with a port by the second constructor
    comes back without it. *)
Lemma socket_host_does_not_round_trip :
  (Host.m_type (Host.from_string (-1) (Str.lit "[/tmp/a:b]")) <> Host.Invalid
   /\ ~ Host.same_host
         (Host.from_string (-1)
            (Host.format (Host.from_string (-1) (Str.lit "[/tmp/a:b]"))))
         (Host.from_string (-1) (Str.lit "[/tmp/a:b]")))
  /\ (Host.m_type (Host.from_addr_port (Str.lit "/tmp/mysql.sock") 3306)
      <> Host.Invalid
      /\ ~ Host.same_host
            (Host.from_string (-1)
               (Host.format
                  (Host.from_addr_port (Str.lit "/tmp/mysql.sock") 3306)))
            (Host.from_addr_port (Str.lit "/tmp/mysql.sock") 3306)).
Proof.
  repeat split; try discriminate.
  - intros (_ & _ & Hty); discriminate Hty.
  - intros (_ & Hport & _); discriminate Hport.
Qed.

(** ** Removing quotes *)

Section TrimQuotesFacts.
Import Chars Str Ident.

(** *** Whitespace at the two ends of a text *)

Lemma ltrim_split (t : Str.t) :
  exists sp, t = sp ++ ltrim t
             /\ all_of isspace sp = true
             /\ isspace (front (ltrim t)) = false.
Proof.
  induction t as [|c t (sp & Heq & Hsp & Hf)].
  - exists []; repeat split.
  - cbn [ltrim]; destruct (isspace c) eqn:Hc.
    + exists (c :: sp); cbn [app all_of forallb]; rewrite Hc, <- Heq.
      repeat split; assumption.
    + exists []; repeat split; exact Hc.
Qed.

Lemma back_rev (t : Str.t) : back (rev t) = front t.
Proof.
  unfold back, front; destruct t as [|c t]; [reflexivity|].
  cbn [rev hd]; apply last_last.
Qed.

Lemma rtrim_split (t : Str.t) :
  exists sp, t = rtrim t ++ sp
             /\ all_of isspace sp = true
             /\ isspace (back (rtrim t)) = false.
Proof.
  destruct (ltrim_split (rev t)) as (sp & Heq & Hsp & Hf).
  exists (rev sp); unfold rtrim; repeat split.
  - rewrite <- rev_app_distr, <- Heq, rev_involutive; reflexivity.
  - apply forallb_forall; intros c Hin; apply in_rev in Hin.
    apply (proj1 (forallb_forall _ _) Hsp c Hin).
  - rewrite back_rev; exact Hf.
Qed.

Lemma front_app (s r : Str.t) : s <> [] -> front (s ++ r) = front s.
Proof. destruct s; [contradiction|reflexivity]. Qed.

(** A text is its trimmed copy between two runs of whitespace. *)
Lemma trimmed_copy_split (t : Str.t) :
  trimmed_copy t <> [] ->
  exists sp1 sp2,
    t = sp1 ++ trimmed_copy t ++ sp2
    /\ rtrim t = sp1 ++ trimmed_copy t
    /\ all_of isspace sp1 = true
    /\ all_of isspace sp2 = true
    /\ isspace (front (trimmed_copy t)) = false
    /\ isspace (back (trimmed_copy t)) = false.
Proof.
  intros Hne.
  destruct (ltrim_split t) as (sp1 & H1 & Hsp1 & Hf).
  destruct (rtrim_split (ltrim t)) as (sp2 & H2 & Hsp2 & Hb).
  fold (trimmed_copy t) in H2, Hb.
  exists sp1, sp2; repeat split; try assumption.
  - rewrite <- H2; exact H1.
  - rewrite H1 at 1; rewrite H2 at 1.
    unfold rtrim.
    rewrite !rev_app_distr.
    assert (Hl : forall sp x, all_of isspace sp = true ->
                   ltrim (rev sp ++ x) = ltrim x).
    { intros sp x Hsp.
      assert (Hr : all_of isspace (rev sp) = true).
      { apply forallb_forall; intros c Hin; apply in_rev in Hin.
        apply (proj1 (forallb_forall _ _) Hsp c Hin). }
      induction (rev sp) as [|c l IH]; [reflexivity|].
      cbn [all_of forallb] in Hr; apply andb_prop in Hr as [Hc Hr].
      cbn [app ltrim]; rewrite Hc; apply IH, Hr. }
    rewrite <- app_assoc, (Hl sp2 _ Hsp2).
    rewrite ltrim_id.
    + rewrite rev_app_distr, !rev_involutive; reflexivity.
    + rewrite front_app, <- back_rev, rev_involutive; [exact Hb|].
      intros Hnil; apply Hne.
      rewrite <- (rev_involutive (trimmed_copy t)), Hnil; reflexivity.
  - rewrite H2, front_app in Hf; assumption.
Qed.

(** *** The loops of the function *)

Lemma deref_middle (a b : Str.t) (c : ascii) :
  deref (a ++ c :: b) (length a) = c.
Proof. unfold deref; apply nth_middle. Qed.

Lemma store_middle (a b : Str.t) (c x : ascii) :
  store (a ++ c :: b) (length a) x = a ++ x :: b.
Proof.
  unfold store; rewrite length_app; cbn [length].
  destruct (Nat.ltb_spec (length a) (length a + S (length b))); [|lia].
  rewrite firstn_app, Nat.sub_diag, firstn_all; cbn [firstn].
  rewrite app_nil_r.
  replace (S (length a)) with (length a + 1)%nat by lia.
  rewrite skipn_app, skipn_all2 by lia.
  replace (length a + 1 - length a)%nat with 1%nat by lia.
  reflexivity.
Qed.

Lemma space_not_nul (c : ascii) : isspace c = true -> (c =? NUL)%char = false.
Proof.
  intros Hc; destruct (Ascii.eqb_spec c NUL) as [->|]; [|reflexivity].
  discriminate Hc.
Qed.

Lemma skip_space_spaces (sp x : Str.t) :
  forall k : nat,
    all_of isspace sp = true ->
    isspace (front x) = false ->
    skip_space (sp ++ x) k = (k + length sp)%nat.
Proof.
  induction sp as [|c sp IH]; intros k Hsp Hx.
  - cbn [app length]; rewrite Nat.add_0_r.
    destruct x as [|c r]; [reflexivity|].
    cbn [front hd] in Hx; cbn [skip_space]; rewrite Hx, andb_false_r.
    reflexivity.
  - cbn [all_of forallb] in Hsp; apply andb_prop in Hsp as [Hc Hsp].
    cbn [app skip_space length].
    rewrite Hc, (space_not_nul c Hc); cbn [negb andb].
    rewrite IH by assumption; lia.
Qed.

Lemma repeat_snoc (c : ascii) (n : nat) :
  repeat c n ++ [c] = c :: repeat c n.
Proof. induction n as [|n IH]; [reflexivity|cbn; rewrite IH; reflexivity]. Qed.

Lemma strip_end_spaces (x sp : Str.t) :
  forall pad : Str.t,
    all_of isspace sp = true ->
    isspace (back x) = false ->
    strip_end (x ++ sp ++ pad) (length x + length sp)
    = (x ++ repeat NUL (length sp) ++ pad, length x).
Proof.
  induction sp as [|c sp IH] using rev_ind; intros pad Hsp Hx.
  - cbn [app length repeat]; rewrite Nat.add_0_r.
    destruct (rev x) as [|b rx] eqn:Hrev.
    + apply (f_equal (@rev ascii)) in Hrev; rewrite rev_involutive in Hrev.
      subst x; reflexivity.
    + apply (f_equal (@rev ascii)) in Hrev; rewrite rev_involutive in Hrev.
      cbn [rev] in Hrev; subst x.
      unfold back in Hx; rewrite last_last in Hx.
      rewrite length_app; cbn [length]; rewrite Nat.add_1_r.
      cbn [strip_end].
      rewrite <- app_assoc; cbn [app].
      rewrite deref_middle, Hx; reflexivity.
  - unfold all_of in Hsp; rewrite forallb_app in Hsp.
    apply andb_prop in Hsp as [Hsp Hc].
    cbn [forallb] in Hc; rewrite andb_true_r in Hc.
    rewrite length_app; cbn [length].
    replace (length x + (length sp + 1))%nat
      with (S (length (x ++ sp))) by (rewrite length_app; lia).
    cbn [strip_end].
    replace (x ++ (sp ++ [c]) ++ pad) with ((x ++ sp) ++ c :: pad)
      by (rewrite <- !app_assoc; reflexivity).
    rewrite deref_middle, Hc, store_middle.
    rewrite <- app_assoc, length_app.
    rewrite (IH (NUL :: pad) Hsp Hx).
    rewrite repeat_app; cbn [repeat].
    rewrite <- !app_assoc; reflexivity.
Qed.

Lemma quote_of_some (c q : ascii) :
  quote_of c = Some q -> c = q /\ (c =? NUL)%char = false
                         /\ isspace c = false.
Proof.
  unfold quote_of.
  destruct (Ascii.eqb_spec c "'") as [->|_];
    [intros [= <-]; repeat split|].
  destruct (Ascii.eqb_spec c "034") as [->|_];
    [intros [= <-]; repeat split|].
  destruct (Ascii.eqb_spec c "`") as [->|_];
    [intros [= <-]; repeat split|discriminate].
Qed.

(** The call on a buffer that holds whitespace, a text [w] that starts
    with a quote character and does not end with it, and whitespace. *)
Lemma unmatched_quote_buffer (sp1 w sp2 : Str.t) (q : ascii) :
  all_of isspace sp1 = true ->
  all_of isspace sp2 = true ->
  ~ In NUL (sp1 ++ w ++ sp2) ->
  quote_of (front w) = Some q ->
  isspace (back w) = false ->
  back w <> q ->
  mxs_mysql_trim_quotes ((sp1 ++ w ++ sp2) ++ [NUL])
  = (false, (sp1 ++ w) ++ repeat NUL (length sp2) ++ [NUL]).
Proof.
  intros Hsp1 Hsp2 Hnul Hq Hbw Hb.
  destruct (quote_of_some _ _ Hq) as (Hfq & Hfn & Hfs).
  assert (Hw : w <> []) by (intros ->; discriminate Hq).
  unfold mxs_mysql_trim_quotes.
  assert (Hlen : strlen ((sp1 ++ w ++ sp2) ++ [NUL])
                 = (length (sp1 ++ w) + length sp2)%nat).
  { unfold strlen; rewrite c_str_app_nul by exact Hnul.
    rewrite app_assoc, length_app; reflexivity. }
  rewrite Hlen.
  assert (Hskip : skip_space ((sp1 ++ w ++ sp2) ++ [NUL]) 0 = length sp1).
  { rewrite <- app_assoc.
    rewrite skip_space_spaces; [reflexivity|exact Hsp1|].
    rewrite <- app_assoc, front_app by exact Hw; exact Hfs. }
  rewrite Hskip.
  destruct w as [|c w']; [contradiction|].
  cbn [front hd] in Hfq, Hfn, Hfs, Hq.
  assert (Hd0 : deref ((sp1 ++ (c :: w') ++ sp2) ++ [NUL]) (length sp1) = c).
  { rewrite <- !app_assoc; cbn [app]; apply deref_middle. }
  rewrite Hd0, Hfn; cbn [negb].
  assert (Hbs : isspace (back (sp1 ++ c :: w')) = false).
  { rewrite back_app by discriminate; exact Hbw. }
  replace ((sp1 ++ (c :: w') ++ sp2) ++ [NUL])
    with ((sp1 ++ c :: w') ++ sp2 ++ [NUL])
    by (rewrite <- !app_assoc; reflexivity).
  rewrite strip_end_spaces by assumption.
  assert (Hd1 : deref ((sp1 ++ c :: w') ++ repeat NUL (length sp2) ++ [NUL])
                      (length sp1) = c).
  { rewrite <- !app_assoc; cbn [app]; apply deref_middle. }
  rewrite Hd1, Hq.
  destruct (exists_last (l := c :: w')) as (w0 & b & Hwb); [discriminate|].
  assert (Hback : back (c :: w') = b)
    by (unfold back; rewrite Hwb; apply last_last).
  assert (Hd2 : deref ((sp1 ++ c :: w') ++ repeat NUL (length sp2) ++ [NUL])
                      (length (sp1 ++ c :: w') - 1) = b).
  { rewrite Hwb.
    replace ((sp1 ++ w0 ++ [b]) ++ repeat NUL (length sp2) ++ [NUL])
      with ((sp1 ++ w0) ++ b :: repeat NUL (length sp2) ++ [NUL])
      by (rewrite <- !app_assoc; reflexivity).
    replace (length (sp1 ++ w0 ++ [b]) - 1)%nat with (length (sp1 ++ w0))
      by (rewrite !length_app; cbn [length]; lia).
    apply deref_middle. }
  rewrite Hd2.
  destruct (Ascii.eqb_spec b q) as [Heq|_]; [|reflexivity].
  exfalso; apply Hb; rewrite Hback; exact Heq.
Qed.

(** C6, as amended.  When the whitespace-trimmed text starts with a
    quote character and does not end with that character, the call
    reports a failure and leaves the text with its trailing whitespace
    removed; the leading whitespace and the quote characters stay. *)
Theorem trim_quotes_unmatched_quote (text : Str.t) (q : ascii) :
  ~ In NUL text ->
  quote_of (front (trimmed_copy text)) = Some q ->
  back (trimmed_copy text) <> q ->
  trim_quotes text = (rtrim text, false).
Proof.
  intros Hnul Hq Hb.
  assert (Hne : trimmed_copy text <> [])
    by (intros Heq; rewrite Heq in Hq; discriminate Hq).
  destruct (trimmed_copy_split text Hne)
    as (sp1 & sp2 & Htext & Hrtrim & Hsp1 & Hsp2 & _ & Hbs).
  rewrite Hrtrim.
  remember (trimmed_copy text) as w eqn:Hw; clear Hw.
  subst text.
  unfold trim_quotes.
  rewrite (unmatched_quote_buffer sp1 w sp2 q) by assumption.
  rewrite repeat_snoc, c_str_app_nul; [reflexivity|].
  intros Hin; apply Hnul.
  rewrite app_assoc; apply in_or_app; left; exact Hin.
Qed.

End TrimQuotesFacts.

Lemma trim_quotes_unmatched_quote_witness :
  Ident.trim_quotes (Str.lit "'abc  ") = (Str.lit "'abc", false).
Proof.
  apply (trim_quotes_unmatched_quote (Str.lit "'abc  ") "'"%char).
  - vm_compute; intros H; repeat (destruct H as [H|H]; [discriminate H|]);
      exact H.
  - reflexivity.
  - vm_compute; intros H; discriminate H.
Defined.

(** C6, as stated, fails: on a text with whitespace before an unmatched
    quote the call leaves that whitespace where it is. *)
Lemma trim_quotes_keeps_leading_whitespace :
  Ident.quote_of (Str.front (Str.trimmed_copy (Str.lit "  'abc")))
  = Some "'"%char
  /\ Str.back (Str.trimmed_copy (Str.lit "  'abc")) <> "'"%char
  /\ Ident.trim_quotes (Str.lit "  'abc") = (Str.lit "  'abc", false)
  /\ Ident.trim_quotes (Str.lit "  'abc")
     <> (Str.trimmed_copy (Str.lit "  'abc"), false).
Proof.
  repeat split; vm_compute; intros H; discriminate H.
Qed.

(* ================================================================== *)
(** * Part III: further properties of the code *)
(* ================================================================== *)

(** ** Connecting: what is returned, what is touched, what is logged *)

Section ConnectMore.
Import Str Backend.
Context `{Client}.
Variables (config : MXS_CONFIG) (con : MYSQL) (server : SERVER).
Variables (user passwd : Str.t).

Let r := mxs_mysql_real_connect config con server user passwd.
Let session := fst (transport_of config con server user passwd).
Let connected := snd (transport_of config con server user passwd).

(** X1.  The call returns a handle exactly when the transport-level
    connect succeeded and, with TLS configured, the session has a cipher;
    the handle returned is the session's. *)
Theorem real_connect_returns_iff :
  (returned r <> None
   <-> connected = true
       /\ (have_ssl server = true -> mysql_get_ssl_cipher session <> None))
  /\ (forall c, returned r = Some c -> c = session).
Proof.
  unfold r, session, connected.
  rewrite (real_connect_unfold config con server user passwd).
  destruct (snd (transport_of config con server user passwd)); cbv zeta.
  - destruct (have_ssl server); cbn [andb].
    + destruct (mysql_get_ssl_cipher _) as [cipher|]; cbn [returned].
      * split; [split; [intros _; split; [reflexivity|discriminate]
                       |discriminate]|].
        intros c [= <-]; reflexivity.
      * split; [split; [intros Hn; contradiction
                       |intros [_ Hc]; exfalso; apply Hc; reflexivity]|].
        discriminate.
    + cbn [returned]; split.
      * split; [intros _; split; [reflexivity|discriminate]|discriminate].
      * intros c [= <-]; reflexivity.
  - cbn [returned]; split.
    + split; [intros Hn; contradiction|intros [Hc _]; discriminate Hc].
    + discriminate.
Qed.

(** X2.  The call leaves the name, address, ports and TLS configuration
    of the server alone, never switches the TLS warning back on, and
    leaves the whole server object as it was when the transport-level
    connect fails. *)
Theorem real_connect_server_frame :
  name (server_after r) = name server
  /\ address (server_after r) = address server
  /\ port (server_after r) = port server
  /\ extra_port (server_after r) = extra_port server
  /\ ssl_config (server_after r) = ssl_config server
  /\ (warn_ssl_not_enabled (server_after r) = true ->
      warn_ssl_not_enabled server = true)
  /\ (connected = false -> server_after r = server).
Proof.
  unfold r, session, connected.
  rewrite (real_connect_unfold config con server user passwd).
  destruct (snd (transport_of config con server user passwd)); cbv zeta.
  - destruct (have_ssl server && _); cbn [server_after].
    + cbn [warn_ssl_not_enabled set_charset].
      destruct (warn_ssl_not_enabled server) eqn:Hw; cbn;
        intuition congruence.
    + cbn; intuition congruence.
  - cbn; intuition congruence.
Qed.

Lemma prepare_log_no_tls_error (s : SERVER) :
  ~ In (tls_error s) (snd (prepare config con server)).
Proof.
  unfold prepare.
  destruct (local_address config) as [la|]; [|intros []].
  destruct (mysql_optionsv _ (MYSQL_OPT_BIND la)) as [con4 rc]; cbn [snd].
  destruct (negb (rc =? 0)); [|intros []].
  intros [Heq|[]]; discriminate Heq.
Qed.

Lemma transport_log_no_tls_error (s : SERVER) (c : MYSQL) :
  ~ In (tls_error s) (snd (transport_connect c server user passwd)).
Proof.
  unfold transport_connect.
  destruct (_ =? "/")%char.
  - destruct (mysql_real_connect c None _ _ _ _); intros [].
  - destruct (mysql_real_connect c (Some _) _ _ _ _) as [con1 ok].
    destruct (negb ok && _).
    + destruct (mysql_real_connect con1 _ _ _ _ _); cbn [snd].
      intros [Heq|[]]; discriminate Heq.
    + intros [].
Qed.

(** X3.  The TLS error is logged only by a call that finds the warning
    flag set, with TLS configured, the transport connected and no cipher,
    and that call clears the flag: on one server object the error is
    logged at most once. *)
Theorem tls_error_logged_once :
  In (tls_error server) (logged r) ->
  warn_ssl_not_enabled server = true
  /\ warn_ssl_not_enabled (server_after r) = false
  /\ have_ssl server = true
  /\ connected = true
  /\ mysql_get_ssl_cipher session = None
  /\ returned r = None.
Proof.
  subst r session connected.
  unfold mxs_mysql_real_connect, transport_of.
  pose proof (prepare_log_no_tls_error server) as Hlog1.
  destruct (prepare config con server) as [con1 log1]; cbn [fst snd] in *.
  pose proof (transport_log_no_tls_error server con1) as Hlog2.
  destruct (transport_connect con1 server user passwd) as [[con2 ok] log2].
  cbn [fst snd] in *.
  assert (Hno : ~ In (tls_error server) (log1 ++ log2)).
  { intros Hin; apply in_app_or in Hin as [Hin|Hin]; auto. }
  destruct ok; [|cbn [logged]; intros Hin; contradiction].
  destruct (have_ssl server); cbn [andb];
    [|cbn [logged]; intros Hin; contradiction].
  destruct (mysql_get_ssl_cipher con2);
    [cbn [logged]; intros Hin; contradiction|].
  cbn [warn_ssl_not_enabled set_charset].
  destruct (warn_ssl_not_enabled server);
    [|cbn [logged]; intros Hin; contradiction].
  intros _; repeat split.
Qed.

End ConnectMore.

Lemma tls_error_logged_once_witness :
  Backend.warn_ssl_not_enabled
    (Backend.server_after
       (Backend.mxs_mysql_real_connect Backend.mock_config Backend.mock_handle
          Backend.tls_server (Str.lit "maxuser") (Str.lit "maxpwd"))) = false.
Proof.
  apply (proj1 (proj2
    (@tls_error_logged_once Backend.mock_client Backend.mock_config
       Backend.mock_handle Backend.tls_server (Str.lit "maxuser")
       (Str.lit "maxpwd") (or_introl eq_refl)))).
Defined.

(** ** Querying: success and failure *)

Section QueryMore.
Import Str Backend.
Context `{Client}.
Variables (cnf : MXS_CONFIG) (conn : MYSQL) (query : Str.t).
Variables (errmsg_out : option Str.t) (errno_out : option Z).

(** X4.  [execute_query] returns no result exactly when the query failed
    for good; when it returns a result it leaves the message and the
    number of the caller as they were, and it does not ask for a result
    set after a query that reported an error. *)
Theorem execute_query_result_iff :
  let r := execute_query cnf conn query errmsg_out errno_out in
  (rval r = None <-> query_failed cnf conn query = true)
  /\ (rval r <> None ->
      errmsg_after r = errmsg_out /\ errno_after r = errno_out)
  /\ (snd (mxs_mysql_query cnf conn (c_str query)) <> 0 ->
      conn_after r = fst (mxs_mysql_query cnf conn (c_str query))).
Proof.
  unfold execute_query, query_failed.
  destruct (mxs_mysql_query cnf conn (c_str query)) as [conn1 rc].
  cbn [fst snd].
  destruct (Z.eqb_spec rc 0) as [->|Hrc].
  - destruct (mysql_store_result conn1) as [conn2 [res|]];
      cbn [rval errmsg_after errno_after conn_after fst snd];
      intuition congruence.
  - cbn [rval errmsg_after errno_after conn_after fst snd];
      intuition congruence.
Qed.

End QueryMore.

(** ** Packet decoding: where it faults and what it recovers *)

Section PacketMore.
Import Chars Str Packet.

Lemma u8_xff (x : Byte.byte) : u8 x = 255 -> x = Byte.xff.
Proof.
  unfold u8; intros Hx.
  assert (Hn : Byte.to_N x = 255%N) by lia.
  pose proof (Byte.of_to_N x) as Hof; rewrite Hn in Hof.
  cbn in Hof; congruence.
Qed.

Lemma command_byte_in (l : list Byte.byte) :
  MYSQL_GET_COMMAND l = 255 -> In Byte.xff l.
Proof.
  unfold MYSQL_GET_COMMAND; intros Hc.
  destruct (Nat.lt_ge_cases 4 (length l)) as [Hlt|Hge].
  - rewrite <- (u8_xff _ Hc); apply nth_In, Hlt.
  - rewrite nth_overflow in Hc by exact Hge; discriminate Hc.
Qed.

Lemma In_skipn_buffer (n : nat) (l : list Byte.byte) (x : Byte.byte) :
  In x (skipn n l) -> In x l.
Proof.
  intros Hin; rewrite <- (firstn_skipn n l); apply in_or_app; right.
  exact Hin.
Qed.

(** A call that ends in a fault: the state it stopped in, and the
    iteration that faulted. *)
Lemma crash_iteration (b : list Byte.byte) (f : fault) (st : state) :
  dbg_decode_response b = Crashed f st ->
  framed b st
  /\ MYSQL_HEADER_LEN + 1 < nRemaining st
  /\ decode_packet b st = Fault f.
Proof.
  intros Hrun.
  pose proof (decode_loop_framed b (length b) (initial b) (initial_framed b))
    as Hloop.
  fold (dbg_decode_response b) in Hloop; rewrite Hrun in Hloop.
  destruct Hloop as (Hg & Hfr & Hstep);
    [unfold initial; cbn [nRemaining]; lia|].
  auto.
Qed.

(** X5.  When the decoder stops on an invalid access, the packet at hand
    is either an ERR packet (command byte 0xff) whose declared payload is
    shorter than 3 bytes or reaches beyond the end of the buffer, and the
    access is a read of the ERR block outside its local array or outside
    the buffer; or it is a packet of another kind whose declared payload
    reaches beyond the end of the buffer, and the access is the move of
    the iterator to the end of that packet. *)
Theorem decode_fault_is_short_err_or_overlong_packet
    (b : list Byte.byte) (f : fault) (st : state) :
  dbg_decode_response b = Crashed f st ->
  (MYSQL_GET_COMMAND (skipn (Z.to_nat (it st)) b) = 255
   /\ (MYSQL_GET_PAYLOAD_LEN (skipn (Z.to_nat (it st)) b) < 3
       \/ len b < it st + MYSQL_HEADER_LEN
                  + MYSQL_GET_PAYLOAD_LEN (skipn (Z.to_nat (it st)) b))
   /\ (f = ArrayOverrun 0 (MYSQL_GET_PAYLOAD_LEN (skipn (Z.to_nat (it st)) b))
       \/ f = ArrayOverrun 2
                (MYSQL_GET_PAYLOAD_LEN (skipn (Z.to_nat (it st)) b))
       \/ f = BufferOverread (it st + (MYSQL_HEADER_LEN + 1))
                (MYSQL_GET_PAYLOAD_LEN (skipn (Z.to_nat (it st)) b) - 1)))
  \/ (MYSQL_GET_COMMAND (skipn (Z.to_nat (it st)) b) <> 255
      /\ len b < it st + MYSQL_HEADER_LEN
                 + MYSQL_GET_PAYLOAD_LEN (skipn (Z.to_nat (it st)) b)
      /\ f = IteratorPastEnd (it st)
               (MYSQL_HEADER_LEN
                + MYSQL_GET_PAYLOAD_LEN (skipn (Z.to_nat (it st)) b))).
Proof.
  intros Hrun.
  destruct (crash_iteration b f st Hrun) as (Hfr & Hg & Hstep).
  destruct (decode_packet_fault b st f Hfr Hg Hstep)
    as [(Hc & s & He)|(Hc & -> & Hlong)].
  - left; split; [exact Hc|].
    destruct Hfr as (Hit & Hrem & Hfr).
    pose proof (framing_consumed_nonneg b _ _ Hfr) as Hpos.
    rewrite <- Hit in Hpos.
    apply decode_err_fault in He; unfold MYSQL_HEADER_LEN in *; try lia.
    destruct He as [[Hpl ->]|[(Hpl & Hb & ->)|[Hpl ->]]]; split; auto; lia.
  - right; repeat split; [exact Hc|lia].
Qed.

(** X6.  A buffer without a byte 0xff never makes the decoder read outside
    the buffer or outside its local array, whatever lengths its headers
    declare: either the call returns, with the iterator inside the buffer
    and at most 5 bytes remaining, or it stops where it moves the iterator
    to the end of a packet whose declared payload reaches beyond the end
    of the buffer. *)
Theorem decode_without_ff_reads_inside (b : list Byte.byte) :
  ~ In Byte.xff b ->
  match dbg_decode_response b with
  | Returned st =>
      0 <= nRemaining st <= MYSQL_HEADER_LEN + 1
      /\ it st = len b - nRemaining st
  | Crashed f st =>
      f = IteratorPastEnd (it st)
            (MYSQL_HEADER_LEN
             + MYSQL_GET_PAYLOAD_LEN (skipn (Z.to_nat (it st)) b))
      /\ len b < it st + MYSQL_HEADER_LEN
                 + MYSQL_GET_PAYLOAD_LEN (skipn (Z.to_nat (it st)) b)
  | Exhausted => False
  end.
Proof.
  intros Hff.
  pose proof (decode_loop_framed b (length b) (initial b) (initial_framed b))
    as Hloop.
  pose proof (decode_loop_inside b (length b) (initial b)) as Hin.
  fold (dbg_decode_response b) in Hloop, Hin.
  destruct (dbg_decode_response b) as [st|f st|] eqn:Hrun.
  - destruct Hloop as (Hstop & _ & Hrem & _);
      [unfold initial; cbn [nRemaining]; lia|].
    assert (it st <= len b)
      by (apply Hin; unfold initial, len; cbn [it]; lia).
    lia.
  - destruct (crash_iteration b f st Hrun) as (Hfr & Hg & Hstep).
    destruct (decode_packet_fault b st f Hfr Hg Hstep)
      as [(Hc & _)|(_ & -> & Hlong)].
    + exfalso; apply Hff.
      apply command_byte_in in Hc.
      apply (In_skipn_buffer _ _ _ Hc).
    + split; [reflexivity|lia].
  - apply Hloop; unfold initial; cbn [nRemaining]; lia.
Qed.

End PacketMore.

Lemma decode_fault_is_short_err_or_overlong_packet_witness :
  Packet.dbg_decode_response
    [Byte.x10; Byte.x00; Byte.x00; Byte.x01; Byte.x00; Byte.x15]
  = Packet.Crashed (Packet.IteratorPastEnd 0 20)
      (Packet.mkState 0 6 (Packet.mkStream [] false) [])
  /\ Packet.len [Byte.x10; Byte.x00; Byte.x00; Byte.x01; Byte.x00; Byte.x15]
     < 0 + Packet.MYSQL_HEADER_LEN + 16.
Proof.
  split; [reflexivity|].
  destruct (decode_fault_is_short_err_or_overlong_packet
    [Byte.x10; Byte.x00; Byte.x00; Byte.x01; Byte.x00; Byte.x15]
    (Packet.IteratorPastEnd 0 20)
    (Packet.mkState 0 6 (Packet.mkStream [] false) []) eq_refl)
    as [(Hc & _)|(_ & Hlong & _)].
  - discriminate Hc.
  - exact Hlong.
Defined.

Lemma decode_without_ff_reads_inside_witness :
  match
    Packet.dbg_decode_response
      [Byte.x03; Byte.x00; Byte.x00; Byte.x01; Byte.x00; Byte.x00; Byte.x00;
       Byte.x10; Byte.x00; Byte.x00; Byte.x02; Byte.xfb; Byte.x15]
  with
  | Packet.Returned st =>
      0 <= Packet.nRemaining st <= Packet.MYSQL_HEADER_LEN + 1
      /\ Packet.it st = 13 - Packet.nRemaining st
  | Packet.Crashed f st =>
      f = Packet.IteratorPastEnd (Packet.it st)
            (Packet.MYSQL_HEADER_LEN
             + Packet.MYSQL_GET_PAYLOAD_LEN
                 (skipn (Z.to_nat (Packet.it st))
                    [Byte.x03; Byte.x00; Byte.x00; Byte.x01; Byte.x00;
                     Byte.x00; Byte.x00; Byte.x10; Byte.x00; Byte.x00;
                     Byte.x02; Byte.xfb; Byte.x15]))
      /\ 13 < Packet.it st + Packet.MYSQL_HEADER_LEN
              + Packet.MYSQL_GET_PAYLOAD_LEN
                  (skipn (Z.to_nat (Packet.it st))
                     [Byte.x03; Byte.x00; Byte.x00; Byte.x01; Byte.x00;
                      Byte.x00; Byte.x00; Byte.x10; Byte.x00; Byte.x00;
                      Byte.x02; Byte.xfb; Byte.x15])
  | Packet.Exhausted => False
  end.
Proof.
  apply (decode_without_ff_reads_inside
    [Byte.x03; Byte.x00; Byte.x00; Byte.x01; Byte.x00; Byte.x00; Byte.x00;
     Byte.x10; Byte.x00; Byte.x00; Byte.x02; Byte.xfb; Byte.x15]).
  vm_compute; intros H; repeat (destruct H as [H|H]; [discriminate H|]);
    exact H.
Defined.

Section PacketStreams.
Import Chars Str Packet.





Lemma u8_range (x : Byte.byte) : 0 <= u8 x <= 255.
Proof. unfold u8; pose proof (Byte.to_N_bounded x); lia. Qed.



Lemma skipn_pre (pre rest : list Byte.byte) :
  skipn (Z.to_nat (len pre)) (pre ++ rest) = rest.
Proof.
  unfold len; rewrite Nat2Z.id, skipn_app, skipn_all, Nat.sub_diag.
  reflexivity.
Qed.






End PacketStreams.


(** ** Pattern translation: the destination buffer *)

Section PatternMore.
Import Chars Str Ident.

Lemma cell_replace_length (l : Str.t) (p : nat) (c : ascii) :
  (p < length l)%nat -> length (firstn p l ++ c :: skipn (S p) l) = length l.
Proof.
  intros Hp.
  rewrite length_app, length_firstn, length_cons, length_skipn; lia.
Qed.

Lemma put_some (pcre pcre' : Str.t) (p : nat) (c : ascii) :
  put pcre p c = Some pcre' ->
  (p < length pcre)%nat /\ length pcre' = length pcre.
Proof.
  unfold put.
  destruct (Nat.ltb_spec p (length pcre)) as [Hlt|]; [|discriminate].
  intros Heq; split; [exact Hlt|].
  rewrite <- (cell_replace_length pcre p c Hlt); congruence.
Qed.

Lemma put_none (pcre : Str.t) (p : nat) (c : ascii) :
  put pcre p c = None -> (length pcre <= p)%nat.
Proof.
  unfold put.
  destruct (Nat.ltb_spec p (length pcre)); [discriminate|auto].
Qed.

Lemma cells_cons (a : mxs_pcre_quote_approach_t) (c : ascii) (m : Str.t) :
  (c =? NUL)%char = false ->
  cells a (c :: m) = (cells_of a c + cells a m)%nat.
Proof. intros Hn; unfold cells; cbn [c_str]; rewrite Hn; reflexivity. Qed.

(** The loop moves the cursor by the cells of the name, keeps the size
    of the destination, reports a '%', and fails only where a cell it
    writes lies outside the destination. *)
Lemma name_to_pcre_loop_cells (a : mxs_pcre_quote_approach_t)
    (mysql : Str.t) :
  forall (pcre : Str.t) (p : nat) (rv : mxs_mysql_name_kind_t),
    match name_to_pcre_loop a mysql pcre p rv with
    | Some (pcre', p', rv') =>
        p' = (p + cells a mysql)%nat
        /\ length pcre' = length pcre
        /\ rv' = (if has_percent (c_str mysql)
                  then MXS_MYSQL_NAME_WITH_WILDCARD else rv)
    | None => (length pcre < p + cells a mysql)%nat
    end.
Proof.
  induction mysql as [|c m IH]; intros pcre p rv.
  - cbn; repeat split; lia.
  - cbn [name_to_pcre_loop c_str].
    destruct (c =? NUL)%char eqn:Hn.
    { unfold cells; cbn [c_str]; rewrite Hn; cbn; repeat split; lia. }
    rewrite (cells_cons a c m Hn).
    cbn [has_percent existsb]; unfold cells_of.
    destruct (c =? "%")%char; cbn [orb].
    + destruct (is_wildcard_approach a).
      * destruct (put pcre p ".") as [pcre1|] eqn:H1;
          [|apply put_none in H1; lia].
        apply put_some in H1 as [Hp1 Hl1].
        destruct (put pcre1 (S p) "*") as [pcre2|] eqn:H2;
          [|apply put_none in H2; lia].
        apply put_some in H2 as [Hp2 Hl2].
        specialize (IH pcre2 (S (S p)) MXS_MYSQL_NAME_WITH_WILDCARD).
        destruct (name_to_pcre_loop a m pcre2 (S (S p)) _)
          as [[[pcre' p'] rv']|]; [|lia].
        destruct IH as (-> & Hl & ->); repeat split; try lia.
        destruct (has_percent (c_str m)); reflexivity.
      * specialize (IH pcre (S p) MXS_MYSQL_NAME_WITH_WILDCARD).
        destruct (name_to_pcre_loop a m pcre (S p) _)
          as [[[pcre' p'] rv']|]; [|lia].
        destruct IH as (-> & Hl & ->); repeat split; try lia.
        destruct (has_percent (c_str m)); reflexivity.
    + destruct (is_pcre_special c).
      * destruct (put pcre p "\") as [pcre1|] eqn:H1;
          [|apply put_none in H1; lia].
        apply put_some in H1 as [Hp1 Hl1].
        destruct (put pcre1 (S p) c) as [pcre2|] eqn:H2;
          [|apply put_none in H2; lia].
        apply put_some in H2 as [Hp2 Hl2].
        specialize (IH pcre2 (S (S p)) rv).
        destruct (name_to_pcre_loop a m pcre2 (S (S p)) rv)
          as [[[pcre' p'] rv']|]; [|lia].
        destruct IH as (-> & Hl & ->); repeat split; lia.
      * destruct (put pcre p c) as [pcre1|] eqn:H1;
          [|apply put_none in H1; lia].
        apply put_some in H1 as [Hp1 Hl1].
        specialize (IH pcre1 (S p) rv).
        destruct (name_to_pcre_loop a m pcre1 (S p) rv)
          as [[[pcre' p'] rv']|]; [|lia].
        destruct IH as (-> & Hl & ->); repeat split; lia.
Qed.

Lemma cells_bound (a : mxs_pcre_quote_approach_t) (mysql : Str.t) :
  (length (c_str mysql) <= cells a mysql <= 2 * length (c_str mysql))%nat.
Proof.
  unfold cells.
  assert (Hone : forall c, (1 <= cells_of a c <= 2)%nat).
  { intros c; unfold cells_of.
    destruct (c =? "%")%char, (is_wildcard_approach a), (is_pcre_special c);
      lia. }
  induction (c_str mysql) as [|c m IH]; [cbn; lia|].
  cbn [map length].
  change (list_sum (cells_of a c :: map (cells_of a) m))
    with (cells_of a c + list_sum (map (cells_of a) m))%nat.
  specialize (Hone c); lia.
Qed.

(** X9.  With either approach the call writes outside the destination
    exactly when the destination has no more cells than the translation
    moves over, so that twice the length of the name plus one cell always
    suffice; when it stays inside, the destination keeps its size and the
    returned kind tells whether the name has a '%'. *)
Theorem name_to_pcre_destination (a : mxs_pcre_quote_approach_t)
    (pcre mysql : Str.t) :
  (mxs_mysql_name_to_pcre pcre mysql a = None
   <-> (length pcre <= cells a mysql)%nat)
  /\ (cells a mysql <= 2 * strlen mysql)%nat
  /\ (forall pcre' kind,
        mxs_mysql_name_to_pcre pcre mysql a = Some (pcre', kind) ->
        length pcre' = length pcre
        /\ (kind = MXS_MYSQL_NAME_WITH_WILDCARD
            <-> has_percent (c_str mysql) = true)).
Proof.
  pose proof (name_to_pcre_loop_cells a mysql pcre 0
                MXS_MYSQL_NAME_WITHOUT_WILDCARD) as Hloop.
  unfold mxs_mysql_name_to_pcre.
  destruct (name_to_pcre_loop a mysql pcre 0 _) as [[[pcre1 p] rv]|].
  - destruct Hloop as (-> & Hl & ->); cbn [Nat.add].
    destruct (put pcre1 (cells a mysql) NUL) as [pcre2|] eqn:Hput.
    + apply put_some in Hput as [Hp Hl2].
      repeat split; try discriminate; try (intros; lia).
      * apply cells_bound.
      * injection H as <- <-; lia.
      * injection H as <- <-.
        destruct (has_percent (c_str mysql)); [reflexivity|discriminate].
      * injection H as <- <-.
        destruct (has_percent (c_str mysql)); [reflexivity|discriminate].
    + apply put_none in Hput.
      repeat split; try discriminate; try (intros; lia).
      apply cells_bound.
  - repeat split; try discriminate; try (intros; lia).
    apply cells_bound.
Qed.

End PatternMore.

Lemma name_to_pcre_prescribed_witness :
  exists pcre',
    Ident.mxs_mysql_name_to_pcre (Str.lit "XXXXXXXXX") (Str.lit "a.b%")
      Ident.MXS_PCRE_QUOTE_WILDCARD
    = Some (pcre', Ident.MXS_MYSQL_NAME_WITH_WILDCARD)
    /\ Str.c_str pcre' = Str.lit "a\.b.*".
Proof.
  apply (name_to_pcre_prescribed Ident.MXS_PCRE_QUOTE_WILDCARD
           (Str.lit "XXXXXXXXX") (Str.lit "a.b%")).
  - vm_compute; intros H; repeat (destruct H as [H|H]; [discriminate H|]);
      exact H.
  - left; reflexivity.
  - vm_compute; lia.
Defined.

(** ** Removing quotes: the successful paths *)

Section TrimQuotesMore.
Import Chars Str Ident.

Lemma nuls_terminated (n : nat) :
  repeat NUL n ++ [NUL] = NUL :: repeat NUL n.
Proof. apply repeat_snoc. Qed.

(** The state after the two whitespace loops, on a buffer that holds
    whitespace, a text [w] without whitespace at its ends, and
    whitespace. *)
Lemma trim_quotes_loops (sp1 w sp2 : Str.t) :
  all_of isspace sp1 = true ->
  all_of isspace sp2 = true ->
  ~ In NUL (sp1 ++ w ++ sp2) ->
  isspace (front w) = false ->
  isspace (back w) = false ->
  w <> [] ->
  let s := (sp1 ++ w ++ sp2) ++ [NUL] in
  skip_space s 0 = length sp1
  /\ deref s (length sp1) = front w
  /\ (front w =? NUL)%char = false
  /\ strip_end s (strlen s)
     = ((sp1 ++ w) ++ NUL :: repeat NUL (length sp2), length (sp1 ++ w)).
Proof.
  intros Hsp1 Hsp2 Hnul Hf Hb Hw s; subst s.
  assert (Hfw : In (front w) (sp1 ++ w ++ sp2)).
  { apply in_or_app; right; apply in_or_app; left.
    destruct w; [contradiction|left; reflexivity]. }
  repeat split.
  - rewrite <- app_assoc.
    rewrite skip_space_spaces; [reflexivity|exact Hsp1|].
    rewrite <- app_assoc, front_app by exact Hw; exact Hf.
  - destruct w as [|c w']; [contradiction|].
    rewrite <- !app_assoc; cbn [app front hd]; apply deref_middle.
  - destruct (Ascii.eqb_spec (front w) NUL) as [Heq|]; [|reflexivity].
    exfalso; apply Hnul; rewrite <- Heq; exact Hfw.
  - unfold strlen; rewrite c_str_app_nul by exact Hnul.
    replace ((sp1 ++ w ++ sp2) ++ [NUL]) with ((sp1 ++ w) ++ sp2 ++ [NUL])
      by (rewrite <- !app_assoc; reflexivity).
    replace (length (sp1 ++ w ++ sp2))
      with (length (sp1 ++ w) + length sp2)%nat
      by (rewrite !length_app; lia).
    rewrite strip_end_spaces;
      [rewrite nuls_terminated; reflexivity|exact Hsp2|].
    rewrite back_app by exact Hw; exact Hb.
Qed.

(** The buffer of a text between quotes. *)
Lemma trim_quotes_matched_buffer (sp1 body sp2 : Str.t) (q : ascii) :
  all_of isspace sp1 = true ->
  all_of isspace sp2 = true ->
  ~ In NUL (sp1 ++ (q :: body ++ [q]) ++ sp2) ->
  quote_of q = Some q ->
  exists rest,
    mxs_mysql_trim_quotes ((sp1 ++ (q :: body ++ [q]) ++ sp2) ++ [NUL])
    = (true, body ++ NUL :: rest).
Proof.
  intros Hsp1 Hsp2 Hnul Hq.
  destruct (quote_of_some _ _ Hq) as (_ & Hqn & Hqs).
  assert (Hback : back (q :: body ++ [q]) = q).
  { unfold back; change (q :: body ++ [q]) with ((q :: body) ++ [q]).
    apply last_last. }
  destruct (trim_quotes_loops sp1 (q :: body ++ [q]) sp2 Hsp1 Hsp2 Hnul)
    as (Hskip & Hd0 & Hn0 & Hstrip);
    [exact Hqs|rewrite Hback; exact Hqs|discriminate|].
  unfold mxs_mysql_trim_quotes.
  rewrite Hskip, Hd0, Hn0, Hstrip; cbn [negb front hd].
  set (R := NUL :: repeat NUL (length sp2)).
  assert (Hd1 : deref ((sp1 ++ q :: body ++ [q]) ++ R) (length sp1) = q).
  { rewrite <- !app_assoc; cbn [app]; apply deref_middle. }
  rewrite Hd1, Hq.
  assert (Hsplit : (sp1 ++ q :: body ++ [q]) ++ R
                   = (sp1 ++ q :: body) ++ q :: R).
  { rewrite <- !app_assoc; cbn [app]; rewrite <- app_assoc; reflexivity. }
  assert (He2 : (length (sp1 ++ q :: body ++ [q]) - 1)%nat
                = length (sp1 ++ q :: body)).
  { rewrite !length_app; cbn [length]; rewrite length_app; cbn [length].
    lia. }
  rewrite He2, Hsplit, deref_middle, Ascii.eqb_refl, store_middle.
  unfold memmove; cbn [firstn app Nat.add].
  replace ((sp1 ++ q :: body) ++ NUL :: R)
    with ((sp1 ++ [q]) ++ body ++ NUL :: R)
    by (rewrite <- !app_assoc; reflexivity).
  replace (S (length sp1)) with (length (sp1 ++ [q]))
    by (rewrite length_app; cbn [length]; lia).
  rewrite skipn_app, skipn_all, Nat.sub_diag, skipn_O; cbn [app].
  replace (length (sp1 ++ q :: body) + 1 - length (sp1 ++ [q]))%nat
    with (length (body ++ [NUL]))
    by (rewrite !length_app; cbn [length]; lia).
  replace (body ++ NUL :: R) with ((body ++ [NUL]) ++ R)
    by (rewrite <- app_assoc; reflexivity).
  rewrite firstn_app, Nat.sub_diag, firstn_all, firstn_O, app_nil_r.
  rewrite <- app_assoc; cbn [app].
  eexists; reflexivity.
Qed.

(** X10.  A text that, whitespace aside, is a body between two equal
    quote characters is reported as dequoted and replaced by the body:
    the whitespace around the quotes and both quotes are removed, quote
    characters inside the body stay. *)
Theorem trim_quotes_matched (text body : Str.t) (q : ascii) :
  ~ In NUL text ->
  quote_of q = Some q ->
  trimmed_copy text = q :: body ++ [q] ->
  trim_quotes text = (body, true).
Proof.
  intros Hnul Hq Hw.
  destruct (trimmed_copy_split text)
    as (sp1 & sp2 & Htext & _ & Hsp1 & Hsp2 & _ & _);
    [rewrite Hw; discriminate|].
  rewrite Hw in Htext; subst text.
  unfold trim_quotes.
  destruct (trim_quotes_matched_buffer sp1 body sp2 q Hsp1 Hsp2 Hnul Hq)
    as [rest ->].
  rewrite c_str_app_nul; [reflexivity|].
  intros Hin; apply Hnul.
  apply in_or_app; right; apply in_or_app; left.
  right; apply in_or_app; left; exact Hin.
Qed.

(** X11.  A text whose trimmed copy does not start with a quote character
    is reported as dequoted and replaced by its trimmed copy; a text of
    whitespace only, or an empty one, becomes the empty text. *)
Theorem trim_quotes_unquoted (text : Str.t) :
  ~ In NUL text ->
  quote_of (front (trimmed_copy text)) = None ->
  trim_quotes text = (trimmed_copy text, true).
Proof.
  intros Hnul Hq.
  destruct (trimmed_copy text) as [|c w'] eqn:Hw.
  - (* whitespace only *)
    destruct (ltrim_split text) as (sp & Htext & Hsp & Hf).
    destruct (rtrim_split (ltrim text)) as (sp2 & H2 & Hsp2 & _).
    fold (trimmed_copy text) in H2; rewrite Hw in H2; cbn [app] in H2.
    assert (Hl : ltrim text = []).
    { destruct (ltrim text) as [|x l]; [reflexivity|].
      subst sp2; cbn [all_of forallb front hd] in Hsp2, Hf.
      rewrite Hf in Hsp2; discriminate Hsp2. }
    rewrite Hl, app_nil_r in Htext; subst text.
    unfold trim_quotes, mxs_mysql_trim_quotes.
    rewrite (skip_space_spaces sp [NUL] 0 Hsp eq_refl).
    cbn [Nat.add]; rewrite deref_middle, Ascii.eqb_refl; cbn [negb].
    destruct sp as [|x sp']; reflexivity.
  - destruct (trimmed_copy_split text)
      as (sp1 & sp2 & Htext & _ & Hsp1 & Hsp2 & Hf & Hb);
      [rewrite Hw; discriminate|].
    rewrite Hw in Htext, Hf, Hb.
    set (w := c :: w') in *.
    rewrite Htext in Hnul |- *.
    destruct (trim_quotes_loops sp1 w sp2 Hsp1 Hsp2 Hnul Hf Hb)
      as (Hskip & Hd0 & Hn0 & Hstrip); [discriminate|].
    unfold trim_quotes, mxs_mysql_trim_quotes.
    rewrite Hskip, Hd0, Hn0, Hstrip; cbn [negb].
    set (R := NUL :: repeat NUL (length sp2)).
    assert (Hd1 : deref ((sp1 ++ w) ++ R) (length sp1) = front w).
    { rewrite <- !app_assoc; unfold w; cbn [app front hd].
      apply deref_middle. }
    rewrite Hd1, Hq.
    assert (Hwn : ~ In NUL w).
    { intros Hin; apply Hnul.
      apply in_or_app; right; apply in_or_app; left; exact Hin. }
    destruct (Nat.eqb_spec (length sp1) 0) as [H0|H0]; cbn [negb].
    + destruct sp1; [|discriminate H0].
      change (([] ++ w) ++ R) with (w ++ R); unfold R.
      rewrite c_str_app_nul by exact Hwn; reflexivity.
    + unfold memmove; cbn [firstn app Nat.add].
      rewrite <- app_assoc.
      rewrite skipn_app, skipn_all, Nat.sub_diag, skipn_O; cbn [app].
      replace (length (sp1 ++ w) + 1 - length sp1)%nat
        with (length (w ++ [NUL]))
        by (rewrite !length_app; cbn [length]; lia).
      unfold R.
      replace (w ++ NUL :: repeat NUL (length sp2))
        with ((w ++ [NUL]) ++ repeat NUL (length sp2))
        by (rewrite <- app_assoc; reflexivity).
      rewrite firstn_app, Nat.sub_diag, firstn_all, firstn_O, app_nil_r.
      rewrite <- app_assoc; cbn [app].
      rewrite c_str_app_nul by exact Hwn; reflexivity.
Qed.

(** X12.  A text that is a single quote character between whitespace is
    reported as dequoted, and what is left of it is the whitespace that
    came before the quote. *)
Theorem trim_quotes_lone_quote (sp1 sp2 : Str.t) (q : ascii) :
  all_of isspace sp1 = true ->
  all_of isspace sp2 = true ->
  quote_of q = Some q ->
  trim_quotes (sp1 ++ q :: sp2) = (sp1, true).
Proof.
  intros Hsp1 Hsp2 Hq.
  destruct (quote_of_some _ _ Hq) as (_ & Hqn & Hqs).
  assert (Hspn : forall sp, all_of isspace sp = true -> ~ In NUL sp).
  { intros sp Hsp Hin.
    pose proof (all_of_In _ _ _ Hsp Hin) as Hc; discriminate Hc. }
  assert (Hnul : ~ In NUL (sp1 ++ [q] ++ sp2)).
  { intros Hin; apply in_app_or in Hin as [Hin|[Hin|Hin]].
    - apply (Hspn sp1 Hsp1 Hin).
    - subst q; discriminate Hqn.
    - apply (Hspn sp2 Hsp2 Hin). }
  destruct (trim_quotes_loops sp1 [q] sp2 Hsp1 Hsp2 Hnul Hqs Hqs)
    as (Hskip & Hd0 & Hn0 & Hstrip); [discriminate|].
  unfold trim_quotes, mxs_mysql_trim_quotes.
  change (sp1 ++ q :: sp2) with (sp1 ++ [q] ++ sp2).
  rewrite Hskip, Hd0, Hn0, Hstrip; cbn [negb front hd].
  set (R := NUL :: repeat NUL (length sp2)).
  assert (Hd1 : deref ((sp1 ++ [q]) ++ R) (length sp1) = q).
  { rewrite <- !app_assoc; cbn [app]; apply deref_middle. }
  rewrite Hd1, Hq.
  replace (length (sp1 ++ [q]) - 1)%nat with (length sp1)
    by (rewrite length_app; cbn [length]; lia).
  rewrite Hd1, Ascii.eqb_refl.
  rewrite <- app_assoc; cbn [app]; rewrite store_middle.
  replace (length sp1 + 1 - S (length sp1))%nat with O by lia.
  unfold memmove; cbn [firstn app Nat.add skipn].
  rewrite c_str_app_nul by (apply Hspn, Hsp1); reflexivity.
Qed.

End TrimQuotesMore.

Lemma trim_quotes_matched_witness :
  Ident.trim_quotes (Str.lit "  'it's'  ") = (Str.lit "it's", true).
Proof.
  apply (trim_quotes_matched (Str.lit "  'it's'  ") (Str.lit "it's")
           "'"%char).
  - vm_compute; intros H; repeat (destruct H as [H|H]; [discriminate H|]);
      exact H.
  - reflexivity.
  - reflexivity.
Defined.

Lemma trim_quotes_unquoted_witness :
  Ident.trim_quotes (Str.lit "  abc  ") = (Str.lit "abc", true).
Proof.
  apply (trim_quotes_unquoted (Str.lit "  abc  ")).
  - vm_compute; intros H; repeat (destruct H as [H|H]; [discriminate H|]);
      exact H.
  - reflexivity.
Defined.

Lemma trim_quotes_lone_quote_witness :
  Ident.trim_quotes (Str.lit "  ' ") = (Str.lit "  ", true).
Proof.
  apply (trim_quotes_lone_quote (Str.lit "  ") (Str.lit " ") "'"%char);
    reflexivity.
Defined.

(** ** Hosts: the address shapes *)

Section ShapeFacts.
Import Chars Str Host.

Lemma count_char_present (c : ascii) (s : Str.t) :
  (0 < count_char c s)%nat -> In c s.
Proof.
  induction s as [|x s IH]; cbn [count_char]; [lia|].
  destruct (Ascii.eqb_spec x c) as [->|_]; [left; reflexivity|].
  intros Hc; right; apply IH, Hc.
Qed.

Lemma ipv4_char_plain (c : ascii) :
  ipv4_char c = true ->
  c <> ":"%char /\ c <> "_"%char /\ c <> "/"%char.
Proof.
  destruct c as [[] [] [] [] [] [] [] []]; vm_compute;
    repeat split; congruence.
Qed.

Lemma colon_not_hostname_char : hostname_char ":" = false.
Proof. reflexivity. Qed.

Lemma front_not_slash_no_socket (a : Str.t) :
  front a <> "/"%char -> is_valid_socket a = false.
Proof.
  intros Hf; unfold is_valid_socket.
  destruct (Ascii.eqb_spec (front a) "/"); [contradiction|reflexivity].
Qed.

(** X13.  The address shapes: an IPv4-shaped address also has the
    hostname shape, which is why [set_type] must try IPv4 first; apart
    from that the shapes exclude each other: an IPv4-shaped address is not
    IPv6-shaped, an IPv6-shaped address is not hostname-shaped, and a
    socket path has none of the three network shapes. *)
Theorem address_shapes (a : Str.t) :
  (is_valid_ipv4 a = true ->
   is_valid_hostname a = true /\ is_valid_ipv6 a = false)
  /\ (is_valid_ipv6 a = true -> is_valid_hostname a = false)
  /\ (is_valid_socket a = true ->
      is_valid_ipv4 a = false /\ is_valid_ipv6 a = false
      /\ is_valid_hostname a = false).
Proof.
  assert (H4 : is_valid_ipv4 a = true ->
               all_of ipv4_char a = true /\ (7 <= length a <= 15)%nat).
  { unfold is_valid_ipv4; intros Hv.
    apply andb_prop in Hv as [Hv _].
    apply andb_prop in Hv as [Hch Hlen].
    apply andb_prop in Hlen as [Hhi Hlo].
    apply Nat.leb_le in Hhi, Hlo; auto. }
  assert (Hsock : forall f : ascii -> bool,
            f "/"%char = false -> is_valid_socket a = true ->
            all_of f a = false).
  { intros f Hf Hs.
    destruct (is_valid_socket_shape a Hs) as (Hfr & _ & Hne).
    destruct a as [|c a']; [contradiction|].
    cbn [front hd] in Hfr; subst c.
    cbn [all_of forallb]; rewrite Hf; reflexivity. }
  split; [|split].
  - intros Hv; destruct (H4 Hv) as [Hch Hlen]; split.
    + unfold is_valid_hostname.
      rewrite (none_of_negb hostname_char).
      rewrite (all_of_impl ipv4_char hostname_char a
                 ipv4_char_hostname_char Hch).
      destruct a as [|c a']; [cbn in Hlen; lia|].
      cbn [front hd andb].
      assert (Hc : ipv4_char c = true)
        by (apply (all_of_In _ _ _ Hch); left; reflexivity).
      destruct (ipv4_char_plain c Hc) as (_ & Hu & _).
      destruct (Ascii.eqb_spec c "_"); [contradiction|].
      destruct (Nat.leb_spec (length (c :: a')) 253); [|lia].
      destruct (Nat.ltb_spec 0 (length (c :: a'))); [reflexivity|lia].
    + unfold is_valid_ipv6.
      rewrite count_char_absent; [reflexivity|].
      intros Hin; destruct (ipv4_char_plain _ (all_of_In _ _ _ Hch Hin))
        as (Hc & _); congruence.
  - intros Hv; unfold is_valid_ipv6 in Hv.
    apply andb_prop in Hv as [Hv _].
    apply andb_prop in Hv as [Hcnt _]; apply Nat.leb_le in Hcnt.
    assert (Hin : In ":"%char a) by (apply count_char_present; lia).
    unfold is_valid_hostname.
    rewrite (none_of_negb hostname_char).
    destruct (all_of hostname_char a) eqn:Hall; [|reflexivity].
    pose proof colon_not_hostname_char as Hcolon.
    rewrite (all_of_In _ _ _ Hall Hin) in Hcolon; discriminate Hcolon.
  - intros Hs; split; [|split].
    + unfold is_valid_ipv4.
      change (fun ch => isdigit ch || (ch =? ".")%char) with ipv4_char.
      rewrite (Hsock ipv4_char eq_refl Hs); reflexivity.
    + unfold is_valid_ipv6.
      rewrite (none_of_negb ipv6_char), (Hsock ipv6_char eq_refl Hs).
      apply andb_false_iff; left; apply andb_false_r.
    + unfold is_valid_hostname.
      rewrite (none_of_negb hostname_char), (Hsock hostname_char eq_refl Hs).
      reflexivity.
Qed.

End ShapeFacts.

(** ** Hosts: what the text constructor makes of its input *)

Section TextConstructorFacts.
Import Chars Str Host.
Variable u : Z.

Lemma set_type_of_fields (a : Str.t) (p : Z) (o1 o2 : Str.t) (b : bool) :
  m_type (set_type (mkHost a p Invalid o1) b)
  = m_type (set_type (mkHost a p Invalid o2) b).
Proof.
  unfold set_type; cbn [m_address m_port].
  destruct (is_valid_socket a), (negb b), (is_valid_port p),
    (is_valid_ipv4 a), (is_valid_ipv6 a), (is_valid_hostname a);
    reflexivity.
Qed.

(** Address, port and type depend on the input through its trimmed copy
    only. *)
Lemma from_string_of_trimmed (x y : Str.t) :
  trimmed_copy x = trimmed_copy y ->
  same_host (from_string u x) (from_string u y).
Proof.
  intros Heq; unfold from_string; rewrite Heq.
  destruct (empty (trimmed_copy y)); [repeat split|].
  destruct (_ =? _)%nat; [|repeat split].
  unfold same_host.
  match goal with
  | |- m_address (set_type ?h1 ?b) = m_address (set_type ?h2 _) /\ _ =>
      destruct (set_type_fields h1 b) as (-> & -> & _);
      destruct (set_type_fields h2 b) as (-> & -> & _)
  end.
  repeat split; apply set_type_of_fields.
Qed.

Lemma ltrim_spaces (sp x : Str.t) :
  all_of isspace sp = true -> ltrim (sp ++ x) = ltrim x.
Proof.
  induction sp as [|c sp IH]; intros Hsp; [reflexivity|].
  cbn [all_of forallb] in Hsp; apply andb_prop in Hsp as [Hc Hsp].
  cbn [app ltrim]; rewrite Hc; apply IH, Hsp.
Qed.

Lemma all_of_rev (f : ascii -> bool) (s : Str.t) :
  all_of f s = true -> all_of f (rev s) = true.
Proof.
  intros Hs; apply forallb_forall; intros c Hin; apply in_rev in Hin.
  apply (all_of_In _ _ _ Hs Hin).
Qed.

Lemma rtrim_spaces (x sp : Str.t) :
  all_of isspace sp = true -> rtrim (x ++ sp) = rtrim x.
Proof.
  intros Hsp; unfold rtrim.
  rewrite rev_app_distr, ltrim_spaces by (apply all_of_rev, Hsp).
  reflexivity.
Qed.

Lemma ltrim_all_spaces (sp : Str.t) :
  all_of isspace sp = true -> ltrim sp = [].
Proof.
  intros Hsp; rewrite <- (app_nil_r sp), ltrim_spaces by exact Hsp.
  reflexivity.
Qed.

Lemma trimmed_copy_padded (sp1 text sp2 : Str.t) :
  all_of isspace sp1 = true ->
  all_of isspace sp2 = true ->
  trimmed_copy (sp1 ++ text ++ sp2) = trimmed_copy text.
Proof.
  intros Hsp1 Hsp2; unfold trimmed_copy.
  rewrite ltrim_spaces by exact Hsp1.
  destruct (ltrim_split text) as (sp & Htext & Hsp & Hf).
  destruct (ltrim text) as [|c w] eqn:Hl.
  - rewrite app_nil_r in Htext; subst text.
    rewrite ltrim_spaces, ltrim_all_spaces by assumption; reflexivity.
  - rewrite Htext at 1.
    rewrite <- app_assoc, ltrim_spaces by exact Hsp.
    cbn [front hd] in Hf.
    rewrite (ltrim_id ((c :: w) ++ sp2)) by exact Hf.
    apply rtrim_spaces, Hsp2.
Qed.

(** X14.  Whitespace around the text is ignored: with any whitespace
    before and after it, the text gives the same address, port and type,
    and the original input is kept as it was given. *)
Theorem from_string_ignores_outer_whitespace (sp1 text sp2 : Str.t) :
  all_of isspace sp1 = true ->
  all_of isspace sp2 = true ->
  same_host (from_string u (sp1 ++ text ++ sp2)) (from_string u text)
  /\ m_org_input (from_string u (sp1 ++ text ++ sp2)) = sp1 ++ text ++ sp2.
Proof.
  intros Hsp1 Hsp2; split.
  - apply from_string_of_trimmed, trimmed_copy_padded; assumption.
  - unfold from_string.
    destruct (empty _); [reflexivity|].
    destruct (_ =? _)%nat; [|reflexivity].
    match goal with
    | |- m_org_input (set_type ?h ?b) = _ =>
        destruct (set_type_fields h b) as (_ & _ & ->)
    end.
    reflexivity.
Qed.

(** The split of "address:port" at the colon, for an address and a port
    text without colons. *)
Lemma scan_address_port (a pt : Str.t) :
  ~ In ":"%char a ->
  ~ In ":"%char pt ->
  pt <> [] ->
  front (a ++ ":"%char :: pt) <> "["%char ->
  scan_input (a ++ ":"%char :: pt)
  = mkScan a pt (length (a ++ ":"%char :: pt)).
Proof.
  intros Ha Hpt Hne Hfront.
  set (input := a ++ ":"%char :: pt) in *.
  assert (Hlen : length input = (length a + S (length pt))%nat)
    by (unfold input; rewrite length_app; reflexivity).
  assert (Hplen : (0 < length pt)%nat)
    by (destruct pt; [contradiction|cbn; lia]).
  unfold scan_input.
  destruct (Ascii.eqb_spec (front input) "["); [contradiction|].
  assert (Hcount : count_char ":" input = 1%nat).
  { unfold input; rewrite count_char_app; cbn [count_char].
    rewrite Ascii.eqb_refl, !count_char_absent by assumption.
    reflexivity. }
  assert (H6 : is_valid_ipv6 input = false)
    by (unfold is_valid_ipv6; rewrite Hcount; reflexivity).
  rewrite H6.
  assert (Hfind : find_char ":" input = length a)
    by (apply find_char_first; exact Ha).
  rewrite Hfind.
  destruct (Nat.eqb_spec (length a) (length input)); [lia|].
  destruct (Nat.eqb_spec (S (length a)) (length input)); [lia|].
  cbn [negb andb]; f_equal.
  - apply range_prefix.
  - unfold input.
    replace (a ++ ":"%char :: pt) with ((a ++ [":"%char]) ++ pt)
      by (rewrite <- app_assoc; reflexivity).
    replace (S (length a)) with (length (a ++ [":"%char]))
      by (rewrite length_app; cbn; lia).
    apply range_suffix.
Qed.

(** X15.  A text "address:port" (no colon in either part, no whitespace
    at its ends, not starting with '[') gives a host with that address
    that is never a unix socket: with a port text that is not all digits
    the port is -1 and the type Invalid, and a socket path followed by a
    port is Invalid as well. *)
Theorem address_with_port_text (a pt : Str.t) :
  ~ In ":"%char a ->
  ~ In ":"%char pt ->
  pt <> [] ->
  front (a ++ ":"%char :: pt) <> "["%char ->
  isspace (front (a ++ ":"%char :: pt)) = false ->
  isspace (back pt) = false ->
  let h := from_string u (a ++ ":"%char :: pt) in
  m_address h = a
  /\ m_type h <> UnixDomainSocket
  /\ (all_of isdigit pt = false -> m_port h = -1 /\ m_type h = Invalid)
  /\ (is_valid_socket a = true -> m_type h = Invalid).
Proof.
  intros Ha Hpt Hne Hfront Hfs Hbs h; subst h.
  set (input := a ++ ":"%char :: pt) in *.
  assert (Htrim : trimmed_copy input = input).
  { apply trimmed_copy_id; [exact Hfs|].
    unfold input; change (":"%char :: pt) with ([":"%char] ++ pt).
    rewrite (back_app a) by discriminate.
    rewrite (back_app [":"%char] pt) by exact Hne; exact Hbs. }
  assert (Hscan : scan_input input = mkScan a pt (length input))
    by (apply scan_address_port; assumption).
  unfold from_string.
  rewrite Htrim, (empty_false input), Hscan;
    [|unfold input; destruct a; discriminate].
  cbn [sc_ite sc_port_part sc_address].
  rewrite Nat.eqb_refl, (empty_false pt Hne); cbn [negb].
  set (port := if all_of isdigit pt then atoi pt else -1).
  destruct (set_type_fields (mkHost a port Invalid input) true)
    as (Haddr & Hport & _).
  split; [exact Haddr|].
  assert (Htype : m_type (set_type (mkHost a port Invalid input) true)
                  = if is_valid_socket a then Invalid
                    else if is_valid_port port then network_type a
                         else Invalid).
  { unfold set_type, network_type; cbn [m_address m_port negb].
    destruct (is_valid_socket a); [reflexivity|].
    destruct (is_valid_port port); [|reflexivity].
    destruct (is_valid_ipv4 a); [reflexivity|].
    destruct (is_valid_ipv6 a); [reflexivity|].
    destruct (is_valid_hostname a); reflexivity. }
  rewrite Htype, Hport; cbn [m_port].
  split; [|split].
  - destruct (is_valid_socket a); [discriminate|].
    destruct (is_valid_port port); [|discriminate].
    unfold network_type.
    destruct (is_valid_ipv4 a); [discriminate|].
    destruct (is_valid_ipv6 a); [discriminate|].
    destruct (is_valid_hostname a); discriminate.
  - intros Hdig; unfold port; rewrite Hdig; split; [reflexivity|].
    destruct (is_valid_socket a); reflexivity.
  - intros ->; reflexivity.
Qed.

End TextConstructorFacts.

Lemma from_string_ignores_outer_whitespace_witness :
  Host.same_host
    (Host.from_string (-1)
       (Str.lit "  " ++ Str.lit "[::1]:4000" ++ Str.lit " "))
    (Host.from_string (-1) (Str.lit "[::1]:4000")).
Proof.
  apply (proj1 (from_string_ignores_outer_whitespace (-1) (Str.lit "  ")
                  (Str.lit "[::1]:4000") (Str.lit " ") eq_refl eq_refl)).
Defined.

Lemma address_with_port_text_witness :
  Host.m_port (Host.from_string (-1) (Str.lit "dbhost:33o6")) = -1
  /\ Host.m_type (Host.from_string (-1) (Str.lit "dbhost:33o6"))
     = Host.Invalid.
Proof.
  apply (proj1 (proj2 (proj2
    (address_with_port_text (-1) (Str.lit "dbhost") (Str.lit "33o6")
       ltac:(vm_compute; intuition discriminate)
       ltac:(vm_compute; intuition discriminate)
       ltac:(discriminate) ltac:(discriminate) eq_refl eq_refl)))).
  reflexivity.
Defined.

(** ** Hosts: writing to a stream and reading back *)

Section StreamFacts.
Import Chars Str Host.
Variable u : Z.

Lemma take_token_whole (token more : Str.t) :
  all_of printable token = true ->
  more = [] \/ isspace (front more) = true ->
  take_token (token ++ more) = (token, more).
Proof.
  intros Htok Hmore.
  induction token as [|c token IH].
  - cbn [app]; destruct more as [|m more']; [reflexivity|].
    destruct Hmore as [Hm|Hm]; [discriminate Hm|].
    cbn [front hd] in Hm; cbn [take_token]; rewrite Hm; reflexivity.
  - cbn [all_of forallb] in Htok; apply andb_prop in Htok as [Hc Htok].
    unfold printable in Hc; apply negb_true_iff in Hc.
    cbn [app take_token]; rewrite Hc, (IH Htok); reflexivity.
Qed.

Lemma hostname_char_printable (c : ascii) :
  hostname_char c = true -> printable c = true.
Proof.
  intros Hc; unfold printable.
  destruct (hostname_char_plain c Hc) as (-> & _); reflexivity.
Qed.

Lemma ipv6_char_printable (c : ascii) :
  ipv6_char c = true -> printable c = true.
Proof.
  intros Hc; unfold printable.
  destruct (ipv6_char_plain c Hc) as (-> & _); reflexivity.
Qed.

Lemma isdigit_printable (c : ascii) :
  isdigit c = true -> printable c = true.
Proof.
  intros Hc; unfold printable.
  destruct (isdigit_plain c Hc) as (-> & _); reflexivity.
Qed.

(** The text of a host of a network type has no whitespace in it. *)
Lemma format_printable (h : Host) :
  classified h ->
  is_network_type (m_type h) = true ->
  all_of printable (format h) = true /\ format h <> [].
Proof.
  intros Hcl Hnet.
  assert (Hfacts : is_valid_port (m_port h) = true
                   /\ network_type (m_address h) = m_type h).
  { unfold classified in Hcl.
    destruct (m_type h); try discriminate Hnet;
      destruct Hcl as (_ & Hp & Hty); auto. }
  destruct Hfacts as (Hp & Hty).
  destruct (port_text _ Hp) as (Hne & Hdig & _).
  pose proof (all_of_impl _ _ _ isdigit_printable Hdig) as Hdp.
  pose proof (network_type_cases (m_address h)) as Hshape.
  rewrite Hty in Hshape.
  assert (Happ : forall x y, all_of printable x = true ->
                 all_of printable y = true ->
                 all_of printable (x ++ y) = true).
  { intros x y Hx Hy; unfold all_of in *.
    rewrite forallb_app, Hx, Hy; reflexivity. }
  unfold format.
  destruct (m_type h); try discriminate Hnet.
  - destruct (hostname_address _ Hshape) as [Ha Hch].
    split; [|destruct (m_address h); [contradiction|discriminate]].
    apply Happ; [apply (all_of_impl _ _ _ hostname_char_printable Hch)|].
    apply Happ; [reflexivity|exact Hdp].
  - destruct (ipv4_address _ Hshape) as [Ha Hch].
    split; [|destruct (m_address h); [contradiction|discriminate]].
    apply Happ; [apply (all_of_impl _ _ _ hostname_char_printable Hch)|].
    apply Happ; [reflexivity|exact Hdp].
  - pose proof (ipv6_address _ Hshape) as Hch.
    split; [|discriminate].
    apply Happ; [reflexivity|].
    apply Happ; [apply (all_of_impl _ _ _ ipv6_char_printable Hch)|].
    apply Happ; [reflexivity|exact Hdp].
Qed.

(** X16.  A host of type HostName, IPV4 or IPV6 written to a stream with
    [operator<<] and followed by whitespace or the end of the stream is
    read back by [operator>>] as the same host (address, port and type),
    and the stream is left at what followed the host. *)
Theorem host_stream_round_trip (h : Host) (more : Str.t) :
  produced u h ->
  is_network_type (m_type h) = true ->
  more = [] \/ isspace (front more) = true ->
  same_host (fst (read_host u (write_host h more))) h
  /\ snd (read_host u (write_host h more)) = more.
Proof.
  intros Hprod Hnet Hmore.
  pose proof (produced_classified u h Hprod) as Hcl.
  destruct (format_printable h Hcl Hnet) as [Hpr Hne].
  unfold read_host, write_host.
  assert (Hfront : isspace (front (format h ++ more)) = false).
  { rewrite front_app by exact Hne.
    apply negb_true_iff.
    apply (all_of_In printable _ _ Hpr), front_In, Hne. }
  rewrite (ltrim_id _ Hfront), (take_token_whole _ _ Hpr Hmore).
  cbn [fst snd]; split; [|reflexivity].
  apply network_host_round_trip; assumption.
Qed.

End StreamFacts.

Lemma host_stream_round_trip_witness :
  Host.same_host
    (fst (Host.read_host (-1)
            (Host.write_host (Host.from_addr_port (Str.lit "db1.local") 3306)
               (Str.lit " next"))))
    (Host.from_addr_port (Str.lit "db1.local") 3306).
Proof.
  apply (proj1 (host_stream_round_trip (-1) _ (Str.lit " next")
           (Host.produced_from_addr_port (-1) (Str.lit "db1.local") 3306)
           eq_refl (or_intror eq_refl))).
Defined.

(** ** reverse_dns *)

Section ReverseDnsFacts.
Import Chars Str Host.
Context `{Resolver}.

Lemma ipv4_char_ipv6_char (c : ascii) :
  ipv4_char c = true -> ipv6_char c = true.
Proof.
  destruct c as [[] [] [] [] [] [] [] []]; vm_compute; congruence.
Qed.

Lemma foreign_char_no_shape (ip : Str.t) (c : ascii) :
  In c ip -> ipv6_char c = false ->
  is_valid_ipv4 ip = false /\ is_valid_ipv6 ip = false.
Proof.
  intros Hin Hc; split.
  - unfold is_valid_ipv4.
    change (fun ch => isdigit ch || (ch =? ".")%char) with ipv4_char.
    destruct (all_of ipv4_char ip) eqn:Hall; [|reflexivity].
    rewrite (ipv4_char_ipv6_char c (all_of_In _ _ _ Hall Hin)) in Hc.
    discriminate Hc.
  - unfold is_valid_ipv6.
    rewrite (none_of_negb ipv6_char).
    destruct (all_of ipv6_char ip) eqn:Hall.
    + rewrite (all_of_In _ _ _ Hall Hin) in Hc; discriminate Hc.
    + apply andb_false_iff; left; apply andb_false_r.
Qed.

(** X17.  [reverse_dns] looks up only texts of the IPv4 or IPv6 shape: a
    text with any character other than hexadecimal digits, ':' and '.'
    (a host name, say) is refused whatever the resolver would answer;
    every refusal and every failed lookup leaves the output string as it
    was, and a success means the text had one of the two shapes. *)
Theorem reverse_dns_only_addresses (ip output : Str.t) :
  (forall c, In c ip -> ipv6_char c = false ->
             reverse_dns ip output = (false, output))
  /\ (fst (reverse_dns ip output) = false ->
      snd (reverse_dns ip output) = output)
  /\ (fst (reverse_dns ip output) = true ->
      is_valid_ipv4 ip = true \/ is_valid_ipv6 ip = true).
Proof.
  split; [|split].
  - intros c Hin Hc.
    destruct (foreign_char_no_shape ip c Hin Hc) as [H4 H6].
    unfold reverse_dns; rewrite H4, H6; reflexivity.
  - unfold reverse_dns.
    destruct (is_valid_ipv4 ip).
    + destruct (inet_pton AF_INET (c_str ip)) as [a|]; cbn [option_map];
        [|reflexivity].
      destruct (getnameinfo AF_INET a); [discriminate|reflexivity].
    + destruct (is_valid_ipv6 ip); [|reflexivity].
      destruct (inet_pton AF_INET6 (c_str ip)) as [a|]; cbn [option_map];
        [|reflexivity].
      destruct (getnameinfo AF_INET6 a); [discriminate|reflexivity].
  - unfold reverse_dns.
    destruct (is_valid_ipv4 ip); [left; reflexivity|].
    destruct (is_valid_ipv6 ip); [right; reflexivity|discriminate].
Qed.

End ReverseDnsFacts.

(** ** Looking up a value by field name *)

Section GetValueFacts.
Import Chars Str Ident.

Lemma tolower_nul (c : ascii) : tolower c = NUL <-> c = NUL.
Proof.
  destruct c as [[] [] [] [] [] [] [] []]; vm_compute;
    split; congruence.
Qed.

Lemma code_zero (c : ascii) : Z.of_N (code c) = 0 <-> c = NUL.
Proof.
  destruct c as [[] [] [] [] [] [] [] []]; vm_compute;
    split; congruence.
Qed.

Lemma code_difference (x y : ascii) :
  Z.of_N (code x) - Z.of_N (code y) = 0 <-> x = y.
Proof.
  split; [|intros ->; lia].
  intros Hd; assert (Hc : code x = code y) by lia.
  unfold code in Hc.
  rewrite <- (ascii_N_embedding x), <- (ascii_N_embedding y), Hc.
  reflexivity.
Qed.

Lemma folded_cons (c : ascii) (s : Str.t) :
  folded (c :: s) = if (c =? NUL)%char then [] else tolower c :: folded s.
Proof.
  unfold folded; cbn [c_str]; destruct (c =? NUL)%char; reflexivity.
Qed.

(** [strcasecmp] returns 0 exactly on texts that are equal once their
    letters are in lower case. *)
Lemma strcasecmp_zero (s1 : Str.t) :
  forall s2 : Str.t, strcasecmp s1 s2 = 0 <-> folded s1 = folded s2.
Proof.
  induction s1 as [|x r1 IH]; intros [|y r2]; cbn [strcasecmp].
  - split; reflexivity.
  - rewrite folded_cons.
    destruct (Ascii.eqb_spec y NUL) as [->|Hy].
    + split; reflexivity.
    + split; [|discriminate].
      intros H0; exfalso; apply Hy, tolower_nul, code_zero; lia.
  - rewrite folded_cons.
    destruct (Ascii.eqb_spec x NUL) as [->|Hx].
    + split; reflexivity.
    + split; [|discriminate].
      intros H0; exfalso; apply Hx, tolower_nul, code_zero; lia.
  - rewrite !folded_cons.
    destruct (Ascii.eqb_spec (tolower x) (tolower y)) as [Heq|Hne].
    + destruct (Ascii.eqb_spec x NUL) as [->|Hx]; cbn [negb andb].
      * assert (Hy : y = NUL) by (apply tolower_nul; rewrite <- Heq;
                                   reflexivity).
        subst y; rewrite Ascii.eqb_refl; split; [reflexivity|].
        intros _; reflexivity.
      * assert (Hy : y <> NUL).
        { intros ->; apply Hx, tolower_nul; rewrite Heq; reflexivity. }
        destruct (Ascii.eqb_spec y NUL); [contradiction|].
        rewrite IH, Heq; split; [intros ->; reflexivity|].
        intros [= Hr]; exact Hr.
    + cbn [andb]; rewrite code_difference.
      split; [contradiction|].
      destruct (Ascii.eqb_spec x NUL) as [->|Hx],
               (Ascii.eqb_spec y NUL) as [->|Hy];
        try discriminate; [intros _; reflexivity|].
      intros [= Hh _]; exact Hh.
Qed.

Lemma same_name_strcasecmp (key : Str.t) (f : MYSQL_FIELD) :
  (strcasecmp (field_name f) key =? 0) = same_name key f.
Proof.
  unfold same_name.
  destruct (list_eq_dec ascii_dec (folded (field_name f)) (folded key))
    as [Heq|Hne].
  - apply Z.eqb_eq, strcasecmp_zero, Heq.
  - apply Z.eqb_neq; intros H0; apply Hne, strcasecmp_zero, H0.
Qed.

Lemma get_value_from_first (f : list MYSQL_FIELD) (row : MYSQL_ROW)
    (key : Str.t) :
  forall i : nat,
    get_value_from f i row key
    = match first_index (same_name key) f with
      | Some j => nth (i + j) row None
      | None => None
      end.
Proof.
  induction f as [|fi rest IH]; intros i; [reflexivity|].
  cbn [get_value_from first_index]; rewrite same_name_strcasecmp.
  destruct (same_name key fi); [rewrite Nat.add_0_r; reflexivity|].
  rewrite IH.
  destruct (first_index (same_name key) rest) as [j|]; cbn [option_map];
    [|reflexivity].
  f_equal; lia.
Qed.

(** X18.  [mxs_mysql_get_value] returns the value the row has at the
    first field whose name equals the key when letter case is ignored,
    also when later fields have that name too, and a null pointer when
    no field has it. *)
Theorem get_value_first_match (result : MYSQL_RES) (row : MYSQL_ROW)
    (key : Str.t) :
  mxs_mysql_get_value result row key
  = match first_index (same_name key) (mysql_fetch_fields result) with
    | Some i => nth i row None
    | None => None
    end.
Proof.
  unfold mxs_mysql_get_value, mysql_num_fields.
  rewrite firstn_all; apply get_value_from_first.
Qed.

(** X19.  The key is matched without regard to letter case: two keys
    that differ in the case of their letters only select the same
    value. *)
Theorem get_value_ignores_case (result : MYSQL_RES) (row : MYSQL_ROW)
    (key key' : Str.t) :
  folded key = folded key' ->
  mxs_mysql_get_value result row key = mxs_mysql_get_value result row key'.
Proof.
  intros Hk; unfold mxs_mysql_get_value.
  generalize 0%nat.
  induction (firstn (mysql_num_fields result) (mysql_fetch_fields result))
    as [|fi rest IH]; intros i; [reflexivity|].
  cbn [get_value_from].
  rewrite !same_name_strcasecmp; unfold same_name; rewrite Hk.
  destruct (list_eq_dec _ _ _); [reflexivity|apply IH].
Qed.

End GetValueFacts.

Lemma get_value_ignores_case_witness :
  Ident.mxs_mysql_get_value
    (Ident.mkRes [Ident.mkField (Str.lit "Variable_name");
                  Ident.mkField (Str.lit "Value")])
    [Some (Str.lit "wsrep_on"); Some (Str.lit "ON")] (Str.lit "VALUE")
  = Ident.mxs_mysql_get_value
      (Ident.mkRes [Ident.mkField (Str.lit "Variable_name");
                    Ident.mkField (Str.lit "Value")])
      [Some (Str.lit "wsrep_on"); Some (Str.lit "ON")] (Str.lit "value").
Proof.
  apply get_value_ignores_case; reflexivity.
Defined.

(** ** Hosts: brackets and IPv6 literals *)

Section BracketFacts.
Import Chars Str Host.
Variable u : Z.

(** X20.  Malformed bracket forms are Invalid: a text "[address" without
    the closing bracket, and a text "[address]" followed by anything but
    a colon and a non-empty port text; the address found so far is kept
    for the diagnostics. *)
Theorem malformed_bracket_is_invalid (a junk : Str.t) :
  ~ In "]"%char a ->
  (a <> [] /\ isspace (back a) = false
   -> from_string u ("["%char :: a)
      = mkHost a u Invalid ("["%char :: a))
  /\ (junk <> [] ->
      front junk <> ":"%char \/ junk = [":"%char] ->
      isspace (back junk) = false ->
      from_string u ("["%char :: a ++ "]"%char :: junk)
      = mkHost a u Invalid ("["%char :: a ++ "]"%char :: junk)).
Proof.
  intros Ha; split.
  - intros [Hne Hb].
    set (input := "["%char :: a).
    assert (Htrim : trimmed_copy input = input).
    { apply trimmed_copy_id; [reflexivity|].
      unfold input; change ("["%char :: a) with (["["%char] ++ a).
      rewrite back_app by exact Hne; exact Hb. }
    assert (Hscan : scan_input input = mkScan a [] 1).
    { unfold scan_input.
      change (front input) with "["%char; rewrite Ascii.eqb_refl.
      assert (Hfind : find_char "]" input = length input).
      { apply find_char_absent; intros [Hin|Hin]; [discriminate|auto]. }
      rewrite Hfind, Nat.eqb_refl; cbn [negb].
      f_equal; unfold range, input; cbn [length skipn].
      replace (S (length a) - 1)%nat with (length a) by lia.
      apply firstn_all. }
    unfold from_string; rewrite Htrim, Hscan; cbn [empty sc_ite sc_address].
    destruct (Nat.eqb_spec 1 (length input)) as [Hl|_]; [|reflexivity].
    unfold input in Hl; cbn [length] in Hl.
    destruct a; [contradiction|discriminate Hl].
  - intros Hne Hjunk Hb.
    set (input := "["%char :: a ++ "]"%char :: junk).
    assert (Htrim : trimmed_copy input = input).
    { apply trimmed_copy_id; [reflexivity|].
      unfold input.
      replace ("["%char :: a ++ "]"%char :: junk)
        with (("["%char :: a ++ ["]"%char]) ++ junk)
        by (cbn [app]; rewrite <- app_assoc; reflexivity).
      rewrite back_app by exact Hne; exact Hb. }
    assert (Hlen : length input = (length a + 2 + length junk)%nat)
      by (unfold input; cbn [length]; rewrite length_app; cbn [length]; lia).
    assert (Hjlen : (0 < length junk)%nat)
      by (destruct junk; [contradiction|cbn; lia]).
    assert (Hscan : scan_input input = mkScan a [] (S (S (length a)))).
    { unfold scan_input.
      change (front input) with "["%char; rewrite Ascii.eqb_refl.
      assert (Hfind : find_char "]" input = S (length a)).
      { unfold input; cbn [find_char].
        change ("[" =? "]")%char with false; cbn iota.
        f_equal; apply (find_char_first "]" a junk Ha). }
      rewrite Hfind.
      destruct (Nat.eqb_spec (S (length a)) (length input)); [lia|].
      destruct (Nat.eqb_spec (S (S (length a))) (length input)); [lia|].
      assert (Hnth : nth (S (S (length a))) input NUL = front junk).
      { unfold input; cbn [nth].
        replace (S (length a)) with (length (a ++ ["]"%char]) + 0)%nat
          by (rewrite length_app; cbn; lia).
        replace (a ++ "]"%char :: junk) with ((a ++ ["]"%char]) ++ junk)
          by (rewrite <- app_assoc; reflexivity).
        rewrite app_nth2_plus.
        destruct junk; [contradiction|reflexivity]. }
      assert (Haddr : range input 1 (S (length a)) = a).
      { unfold range, input; cbn [skipn].
        replace (S (length a) - 1)%nat with (length a) by lia.
        rewrite firstn_app, Nat.sub_diag, firstn_all, firstn_O.
        apply app_nil_r. }
      rewrite Hnth, Haddr; cbn [negb andb].
      destruct Hjunk as [Hc|Hc].
      - destruct (Ascii.eqb_spec (front junk) ":"); [contradiction|].
        reflexivity.
      - subst junk; cbn [front hd length] in *.
        rewrite Ascii.eqb_refl.
        destruct (Nat.eqb_spec (S (S (S (length a)))) (length input));
          [reflexivity|lia]. }
    unfold from_string; rewrite Htrim, Hscan; cbn [empty sc_ite sc_address].
    change (empty input) with false; cbv iota.
    destruct (Nat.eqb_spec (S (S (length a))) (length input)); [lia|].
    reflexivity.
Qed.

(** X21.  A text of the IPv6 shape that is not in brackets is taken
    whole as the address, colons and all: it never carries a port, so its
    port is the initial one and, when that is no valid port, its type is
    Invalid; a port can only be given as "[address]:port". *)
Theorem unbracketed_ipv6_has_no_port (input : Str.t) :
  is_valid_ipv6 input = true ->
  m_address (from_string u input) = input
  /\ m_port (from_string u input) = u
  /\ m_type (from_string u input)
     = if is_valid_port u then IPV6 else Invalid.
Proof.
  intros H6.
  pose proof (ipv6_address input H6) as Hch.
  assert (Hlen : (2 <= length input)%nat).
  { unfold is_valid_ipv6 in H6.
    apply andb_prop in H6 as [_ Hl]; apply andb_prop in Hl as [_ Hl].
    apply Nat.leb_le, Hl. }
  assert (Hne : input <> []) by (intros ->; cbn in Hlen; lia).
  destruct (ipv6_char_plain _ (all_of_In _ _ _ Hch (front_In _ Hne)))
    as (Hfs & _ & Hfb & Hfsl).
  destruct (ipv6_char_plain _ (all_of_In _ _ _ Hch (back_In _ Hne)))
    as (Hbs & _).
  assert (Hcolons : In ":"%char input).
  { unfold is_valid_ipv6 in H6.
    apply andb_prop in H6 as [Hc _]; apply andb_prop in Hc as [Hc _].
    apply Nat.leb_le in Hc.
    clear - Hc; induction input as [|x s IH]; cbn [count_char] in Hc; [lia|].
    destruct (Ascii.eqb_spec x ":") as [->|_]; [left; reflexivity|].
    right; apply IH, Hc. }
  assert (H4 : is_valid_ipv4 input = false).
  { unfold is_valid_ipv4.
    change (fun ch => isdigit ch || (ch =? ".")%char) with ipv4_char.
    destruct (all_of ipv4_char input) eqn:Hall; [|reflexivity].
    pose proof (all_of_In _ _ _ Hall Hcolons) as Hc; discriminate Hc. }
  unfold from_string.
  rewrite (trimmed_copy_id input Hfs Hbs), (empty_false input Hne).
  assert (Hscan : scan_input input = mkScan input [] (length input)).
  { unfold scan_input.
    destruct (Ascii.eqb_spec (front input) "["); [contradiction|].
    rewrite H6; reflexivity. }
  rewrite Hscan; cbn [sc_ite sc_port_part sc_address empty negb].
  rewrite Nat.eqb_refl.
  destruct (set_type_fields (mkHost input u Invalid input) false)
    as (-> & -> & _).
  repeat split.
  unfold set_type; cbn [m_address m_port negb].
  rewrite (front_not_slash_no_socket input Hfsl), H4, H6.
  destruct (is_valid_port u); reflexivity.
Qed.

End BracketFacts.

Lemma unbracketed_ipv6_has_no_port_witness :
  Host.m_address (Host.from_string (-1) (Str.lit "::1:3306"))
  = Str.lit "::1:3306"
  /\ Host.m_port (Host.from_string (-1) (Str.lit "::1:3306")) = -1
  /\ Host.m_type (Host.from_string (-1) (Str.lit "::1:3306"))
     = (if Host.is_valid_port (-1) then Host.IPV6 else Host.Invalid).
Proof.
  apply (unbracketed_ipv6_has_no_port (-1) (Str.lit "::1:3306")).
  reflexivity.
Defined.

Lemma malformed_bracket_is_invalid_witness :
  Host.from_string (-1) (Str.lit "[::1]x")
  = Host.mkHost (Str.lit "::1") (-1) Host.Invalid (Str.lit "[::1]x").
Proof.
  apply (proj2 (malformed_bracket_is_invalid (-1) (Str.lit "::1")
                  (Str.lit "x")
                  ltac:(vm_compute; intuition discriminate))).
  - discriminate.
  - left; discriminate.
  - reflexivity.
Defined.
